(** * PDF renamer: fuzzy matching, rename ledger and undo

    A shallow embedding of the "PDF Renamer" part of
    [src/Convert_doc_to_PDF.py]: the text normaliser
    ([clean_text_for_matching], [extract_meaningful_words]), the
    similarity primitives ([calculate_word_overlap_score],
    [fuzzy_word_match]), the strategy cascade and matcher loop of
    [rename_pdfs_with_document_numbers], its rename executor with the
    [rename_backup.json] ledger, and [undo_renames].

    Conventions of the embedding.
    - A Python [str] is a list of Unicode code points ([list N]).
    - The character classes of [re] and [str] are written out for ASCII;
      the rows of the Unicode database beyond ASCII are a parameter
      ([unicode_db]), as is [difflib.SequenceMatcher.ratio].
    - A Python [float] is an exact rational ([Q]); the thresholds
      [0.7], [0.6], ... are the corresponding decimal fractions.  The
      module [Doubles] recomputes the threshold tests on IEEE binary64
      at their boundary cases.
    - A Python [dict] is an insertion-ordered association list with
      unique keys; the files below the PDF folder are a finite map
      from relative paths to file contents. *)

From Stdlib Require Import ZArith NArith QArith Qminmax Lia Bool Floats Uint63.
From Stdlib Require Ascii String.
From Stdlib Require Import Lqa Qfield Sorted.
From stdpp Require Import strings gmap list.

(** ** Python strings *)

Abbreviation pystr := (list N).

(** [py "abc"] is the Python literal ['abc'] (ASCII literals only). *)
Definition py (s : String.string) : pystr :=
  List.map Ascii.N_of_ascii (String.list_ascii_of_string s).

Fixpoint str_eqb (a b : pystr) : bool :=
  match a, b with
  | [], [] => true
  | x :: a', y :: b' => N.eqb x y && str_eqb a' b'
  | _, _ => false
  end.

(** [x in xs] for a list (or set literal) of strings. *)
Definition str_in (w : pystr) (ws : list pystr) : bool :=
  existsb (str_eqb w) ws.

(** ** Character classes

    CPython evaluates [\s], [\w], [str.strip], [str.isdigit] and
    [str.lower] through its Unicode database.  Its ASCII rows are
    written out below; the other rows are the fields of [unicode_db]. *)

Record unicode_db := UnicodeDb {
  uni_isspace : N -> bool;          (* Py_UNICODE_ISSPACE beyond ASCII *)
  uni_isalnum : N -> bool;          (* Py_UNICODE_ISALNUM beyond ASCII *)
  uni_isdigit : N -> bool;          (* str.isdigit beyond ASCII *)
  uni_lower : pystr -> pystr        (* str.lower of a non-ASCII string *)
}.

Definition is_ascii (c : N) : bool := (c <? 128)%N.

Definition ascii_isspace (c : N) : bool :=
  ((9 <=? c) && (c <=? 13) || (28 <=? c) && (c <=? 32))%N.

Definition ascii_isdigit (c : N) : bool := ((48 <=? c) && (c <=? 57))%N.
Definition ascii_isupper (c : N) : bool := ((65 <=? c) && (c <=? 90))%N.
Definition ascii_islower (c : N) : bool := ((97 <=? c) && (c <=? 122))%N.

Definition ascii_isalnum (c : N) : bool :=
  ascii_isdigit c || ascii_isupper c || ascii_islower c.

Definition ascii_lower (c : N) : N :=
  if ascii_isupper c then (c + 32)%N else c.

Definition SPACE : N := 32.
Definition UNDERSCORE : N := 95.
Definition HYPHEN : N := 45.
Definition DOT : N := 46.

Section Text.
Variable db : unicode_db.

(** [\s] of [re] on [str] patterns, and the characters [str.strip]
    removes. *)
Definition is_space (c : N) : bool :=
  if is_ascii c then ascii_isspace c else uni_isspace db c.

(** [\w] of [re] on [str] patterns: alphanumeric or underscore. *)
Definition is_word (c : N) : bool :=
  if is_ascii c then ascii_isalnum c || N.eqb c UNDERSCORE
  else uni_isalnum db c.

Definition is_digit (c : N) : bool :=
  if is_ascii c then ascii_isdigit c else uni_isdigit db c.

(** [s.lower()] *)
Definition str_lower (s : pystr) : pystr :=
  if forallb is_ascii s then List.map ascii_lower s else uni_lower db s.

(** [s.isdigit()]: non-empty and every character a digit. *)
Definition str_isdigit (s : pystr) : bool :=
  match s with
  | [] => false
  | _ => forallb is_digit s
  end.

(** [s.replace(old, new)] for one-character [old] and [new]. *)
Definition replace_char (old new : N) (s : pystr) : pystr :=
  List.map (fun c => if N.eqb c old then new else c) s.

(** [re.sub(r'[^\w\s]', ' ', s)] *)
Definition sub_nonword (s : pystr) : pystr :=
  List.map (fun c => if is_word c || is_space c then c else SPACE) s.

(** [re.sub(r'\s+', ' ', s)]: [in_run] tells that the previous
    character belonged to the whitespace run being replaced. *)
Fixpoint sub_spaces_from (in_run : bool) (s : pystr) : pystr :=
  match s with
  | [] => []
  | c :: s' =>
      if is_space c then
        if in_run then sub_spaces_from true s'
        else SPACE :: sub_spaces_from true s'
      else c :: sub_spaces_from false s'
  end.

Definition sub_spaces (s : pystr) : pystr := sub_spaces_from false s.

(** [s.lstrip()], [s.rstrip()], [s.strip()] *)
Fixpoint lstrip (s : pystr) : pystr :=
  match s with
  | [] => []
  | c :: s' => if is_space c then lstrip s' else s
  end.

Definition rstrip (s : pystr) : pystr := rev (lstrip (rev s)).

Definition strip (s : pystr) : pystr := rstrip (lstrip s).

(** The text before the final [.lower()] of [clean_text_for_matching]. *)
Definition clean_text_cased (text : pystr) : pystr :=
  let text := replace_char DOT SPACE
                (replace_char HYPHEN SPACE
                   (replace_char UNDERSCORE SPACE text)) in
  let cleaned := sub_nonword text in
  strip (sub_spaces cleaned).

(** [clean_text_for_matching(text)] *)
Definition clean_text_for_matching (text : pystr) : pystr :=
  str_lower (clean_text_cased text).

(** [re.findall(r'\w+', s)]: [cur] is the match in progress, reversed. *)
Fixpoint findall_words_from (cur : pystr) (s : pystr) : list pystr :=
  match s with
  | [] => match cur with [] => [] | _ => [rev cur] end
  | c :: s' =>
      if is_word c then findall_words_from (c :: cur) s'
      else match cur with
           | [] => findall_words_from [] s'
           | _ => rev cur :: findall_words_from [] s'
           end
  end.

Definition findall_words (s : pystr) : list pystr :=
  findall_words_from [] s.

Definition stop_words : list pystr :=
  List.map py
    ["the"; "and"; "for"; "are"; "but"; "not"; "you"; "all"; "can";
     "had"; "her"; "was"; "one"; "our"; "out"; "day"; "get"; "has";
     "him"; "his"; "how"; "its"; "may"; "new"; "now"; "old"; "see";
     "two"; "way"; "who"; "boy"; "did"; "man"; "end"; "few"; "got";
     "let"; "put"; "say"; "she"; "too"; "use"]%string.

(** [extract_meaningful_words(text, min_length)] *)
Definition extract_meaningful_words (text : pystr) (min_length : nat)
  : list pystr :=
  let cleaned := clean_text_for_matching text in
  let words := findall_words (str_lower cleaned) in
  List.filter
    (fun word =>
       (min_length <=? length word)%nat
       && negb (str_in word stop_words)
       && negb (str_isdigit word))
    words.

End Text.

(** A unicode database with the rows this development's examples touch:
    U+0085 and U+00A0 are whitespace; U+0130 (capital I with dot above)
    is a letter whose lowercase form is the two characters U+0069 U+0307;
    U+0307 (combining dot above) is a mark, neither alphanumeric nor
    whitespace. *)
Definition db_rows : unicode_db :=
  {| uni_isspace := fun c => N.eqb c 133 || N.eqb c 160;
     uni_isalnum := fun c => N.eqb c 304;
     uni_isdigit := fun _ => false;
     uni_lower :=
       flat_map (fun c => if N.eqb c 304 then [105; 775]%N
                          else [ascii_lower c]) |}.

(** ** Floats as rationals *)

Definition Qnat (n : nat) : Q := inject_Z (Z.of_nat n).

(** [x > y] and [x >= y] on floats. *)
Definition Qgt_bool (x y : Q) : bool := negb (Qle_bool x y).
Definition Qge_bool (x y : Q) : bool := Qle_bool y x.

(** The same arithmetic on IEEE binary64, as Python computes it, for the
    scores that depend only on counts. *)
Module Doubles.

Definition of_nat (n : nat) : float :=
  PrimFloat.of_uint63 (Uint63.of_Z (Z.of_nat n)).

(** [min(x, y)] *)
Definition fmin (x y : float) : float :=
  if PrimFloat.ltb y x then y else x.

(** The literals [0.1], [0.3], [0.6] and [0.7]. *)
Definition lit_0_1 : float := 0x1.999999999999ap-4.
Definition lit_0_3 : float := 0x1.3333333333333p-2.
Definition lit_0_6 : float := 0x1.3333333333333p-1.
Definition lit_0_7 : float := 0x1.6666666666666p-1.

(** The score of [calculate_word_overlap_score] for an intersection of
    [i] and a union of [u] words. *)
Definition word_overlap_score (i u : nat) : float :=
  fmin (of_nat i / of_nat u + fmin (of_nat i * lit_0_1) lit_0_3) 1.

(** [fuzzy_matches / max(len(pdf_words), len(doc_words))] *)
Definition fuzzy_score (fuzzy_matches longest : nat) : float :=
  of_nat fuzzy_matches / of_nat longest.

End Doubles.

(** ** Similarity primitives *)

(** [set(words)] *)
Definition word_set (words : list pystr) : gset pystr := list_to_set words.

(** [calculate_word_overlap_score(pdf_words, doc_words)] *)
Definition calculate_word_overlap_score (pdf_words doc_words : list pystr) : Q :=
  match pdf_words, doc_words with
  | [], _ | _, [] => 0%Q
  | _, _ =>
      let pdf_set := word_set pdf_words in
      let doc_set := word_set doc_words in
      let intersection := pdf_set ∩ doc_set in
      let union := pdf_set ∪ doc_set in
      if (size union =? 0)%nat then 0%Q
      else
        let jaccard_score := (Qnat (size intersection) / Qnat (size union))%Q in
        let match_bonus := Qmin (Qnat (size intersection) * (1 # 10)) (3 # 10) in
        Qmin (jaccard_score + match_bonus) 1
  end.

(** Python's [a in b] on strings. *)
Fixpoint is_prefix (a b : pystr) : bool :=
  match a, b with
  | [], _ => true
  | x :: a', y :: b' => N.eqb x y && is_prefix a' b'
  | _ :: _, [] => false
  end.

Fixpoint str_contains (needle hay : pystr) : bool :=
  is_prefix needle hay
  || match hay with
     | [] => false
     | _ :: hay' => str_contains needle hay'
     end.

(** The match types the matcher reports: ['exact'], ['word_overlap'],
    ['substring'], ['reverse'], ['fuzzy_words'], ['high_similarity']. *)
Inductive match_type :=
  | T_exact | T_word_overlap | T_substring | T_reverse
  | T_fuzzy_words | T_high_similarity.

(** The detail texts, before formatting. *)
Inductive details :=
  | D_none                                   (* "" *)
  | D_perfect                                (* "Perfect normalized match" *)
  | D_common (common_words : gset pystr)     (* "Common words: ..." *)
  | D_overlap (overlap_ratio : Q)            (* "Overlap ratio: ..." *)
  | D_fuzzy (fuzzy_matches : nat)            (* "... words matched" *)
  | D_similarity (sim_score : Q).            (* "String similarity: ..." *)

(** What one strategy proposes for one (file, entry) pair, before it is
    compared with [best_score]. *)
Record candidate := Candidate {
  cand_score : Q;
  cand_type : match_type;
  cand_details : details
}.

(** The [best_*] variables of the matcher loop. *)
Record best := Best {
  best_match : option pystr;
  best_score : Q;
  best_doc_number : option pystr;
  best_match_type : option match_type;
  best_match_details : details
}.

Definition best_init : best :=
  {| best_match := None; best_score := 0; best_doc_number := None;
     best_match_type := None; best_match_details := D_none |}.

(** The [if score > best_score: best_... = ...] block that ends every
    strategy.  Scores are the exact values of the expressions the code
    evaluates in doubles.  Two scores of different exact value compare
    on doubles as they do here, for names of any realistic length; two
    scores of equal exact value can differ in the last binary place
    ([1.0 * 0.7 < 0.875 * 0.8] on doubles, see [doubles_tied_scores]),
    so which of several candidates of equal exact score is kept is not
    settled by this definition, and no statement below relies on it. *)
Definition update_best (doc_name doc_number : pystr) (c : option candidate)
    (b : best) : best :=
  match c with
  | None => b
  | Some c =>
      if Qgt_bool (cand_score c) (best_score b) then
        {| best_match := Some doc_name; best_score := cand_score c;
           best_doc_number := Some doc_number;
           best_match_type := Some (cand_type c);
           best_match_details := cand_details c |}
      else b
  end.

Section Matcher.
Variable db : unicode_db.
(** [SequenceMatcher(None, a, b).ratio()] of [difflib]. *)
Variable sequence_ratio : pystr -> pystr -> Q.

(** [similarity(a, b)] *)
Definition similarity (a b : pystr) : Q :=
  sequence_ratio (str_lower db a) (str_lower db b).

(** [fuzzy_word_match(word1, word2, threshold)] *)
Definition fuzzy_word_match (word1 word2 : pystr) (threshold : Q) : bool :=
  if (length word1 <? 4)%nat || (length word2 <? 4)%nat
  then str_eqb word1 word2
  else Qge_bool (similarity word1 word2) threshold.

(** Strategy 2, the condition and body of the first [if]. *)
Definition word_overlap_strategy (pdf_words doc_words : list pystr)
  : option candidate :=
  let word_overlap_score := calculate_word_overlap_score pdf_words doc_words in
  if Qgt_bool word_overlap_score (7 # 10)
     && (2 <=? length pdf_words)%nat && (2 <=? length doc_words)%nat
  then
    let common_words := word_set pdf_words ∩ word_set doc_words in
    Some (Candidate word_overlap_score T_word_overlap (D_common common_words))
  else None.

(** Strategy 3, the body under [elif len(clean_doc_name) > 8]. *)
Definition substring_strategy (clean_pdf_name clean_doc_name : pystr)
  : option candidate :=
  if str_contains clean_doc_name clean_pdf_name then
    let overlap_ratio :=
      (Qnat (length clean_doc_name)
       / Qnat (Nat.max (length clean_pdf_name) (length clean_doc_name)))%Q in
    if Qgt_bool overlap_ratio (6 # 10)
    then Some (Candidate (overlap_ratio * (8 # 10)) T_substring
                 (D_overlap overlap_ratio))
    else None
  else if str_contains clean_pdf_name clean_doc_name
          && (8 <? length clean_pdf_name)%nat then
    let overlap_ratio :=
      (Qnat (length clean_pdf_name)
       / Qnat (Nat.max (length clean_pdf_name) (length clean_doc_name)))%Q in
    if Qgt_bool overlap_ratio (6 # 10)
    then Some (Candidate (overlap_ratio * (75 # 100)) T_reverse
                 (D_overlap overlap_ratio))
    else None
  else None.

(** The inner [for doc_word in doc_words: ... break] of strategy 4:
    does some document word match [pdf_word]? *)
Fixpoint some_doc_word_matches (pdf_word : pystr) (doc_words : list pystr)
  : bool :=
  match doc_words with
  | [] => false
  | doc_word :: rest =>
      if fuzzy_word_match pdf_word doc_word (85 # 100) then true
      else some_doc_word_matches pdf_word rest
  end.

(** The outer [for pdf_word in pdf_words] with its counter
    [fuzzy_matches]. *)
Fixpoint count_fuzzy_matches (pdf_words doc_words : list pystr)
    (fuzzy_matches : nat) : nat :=
  match pdf_words with
  | [] => fuzzy_matches
  | pdf_word :: rest =>
      count_fuzzy_matches rest doc_words
        (if some_doc_word_matches pdf_word doc_words
         then S fuzzy_matches else fuzzy_matches)
  end.

(** Strategy 4, the body under
    [elif len(pdf_words) >= 2 and len(doc_words) >= 2]. *)
Definition fuzzy_words_strategy (pdf_words doc_words : list pystr)
  : option candidate :=
  let fuzzy_matches := count_fuzzy_matches pdf_words doc_words 0 in
  let fuzzy_score :=
    (Qnat fuzzy_matches
     / Qnat (Nat.max (length pdf_words) (length doc_words)))%Q in
  if Qgt_bool fuzzy_score (6 # 10) && (2 <=? fuzzy_matches)%nat
  then Some (Candidate (fuzzy_score * (7 # 10)) T_fuzzy_words
               (D_fuzzy fuzzy_matches))
  else None.

(** Strategy 5, the body under the final [else]. *)
Definition high_similarity_strategy (clean_pdf_name clean_doc_name : pystr)
  : option candidate :=
  let sim_score := similarity clean_pdf_name clean_doc_name in
  if Qgt_bool sim_score (85 # 100)
     && (6 <? length clean_pdf_name)%nat && (6 <? length clean_doc_name)%nat
  then Some (Candidate (sim_score * (6 # 10)) T_high_similarity
               (D_similarity sim_score))
  else None.

(** The [if / elif / elif / else] chain that follows the exact test:
    exactly one strategy is consulted per (file, entry) pair. *)
Definition cascade (clean_pdf_name : pystr) (pdf_words : list pystr)
    (clean_doc_name : pystr) (doc_words : list pystr) : option candidate :=
  match word_overlap_strategy pdf_words doc_words with
  | Some c => Some c
  | None =>
      if (8 <? length clean_doc_name)%nat then
        substring_strategy clean_pdf_name clean_doc_name
      else if (2 <=? length pdf_words)%nat && (2 <=? length doc_words)%nat then
        fuzzy_words_strategy pdf_words doc_words
      else
        high_similarity_strategy clean_pdf_name clean_doc_name
  end.

(** How the loop over [name_to_number.items()] ends for one file:
    [break] on an exact match, or exhaustion with the best candidate. *)
Inductive loop_result :=
  | Exact_break (doc_name doc_number : pystr)
  | Exhausted (b : best).

Fixpoint match_loop (clean_pdf_name : pystr) (pdf_words : list pystr)
    (items : list (pystr * pystr)) (b : best) : loop_result :=
  match items with
  | [] => Exhausted b
  | (doc_name, doc_number) :: rest =>
      let clean_doc_name := clean_text_for_matching db doc_name in
      let doc_words := extract_meaningful_words db doc_name 3 in
      if str_eqb clean_pdf_name clean_doc_name then
        Exact_break doc_name doc_number
      else
        match_loop clean_pdf_name pdf_words rest
          (update_best doc_name doc_number
             (cascade clean_pdf_name pdf_words clean_doc_name doc_words) b)
  end.

(** The tuple appended to [matches], without its [pdf_file]. *)
Record match_info := MatchInfo {
  m_doc_number : pystr;
  m_matched_name : pystr;
  m_match_type : match_type;
  m_details : details
}.

(** The body of [for pdf_file in pdf_files] for a file whose stem is
    [pdf_name]: [Some] is the entry appended to [matches], [None]
    sends the file to [unmatched_pdfs]. *)
Definition match_pdf (pdf_name : pystr) (name_to_number : list (pystr * pystr))
  : option match_info :=
  let pdf_words := extract_meaningful_words db pdf_name 3 in
  let clean_pdf_name := clean_text_for_matching db pdf_name in
  match match_loop clean_pdf_name pdf_words name_to_number best_init with
  | Exact_break doc_name doc_number =>
      Some (MatchInfo doc_number doc_name T_exact D_perfect)
  | Exhausted b =>
      match best_match b, best_doc_number b, best_match_type b with
      | Some name, Some number, Some type =>
          if negb (str_eqb name []) && Qgt_bool (best_score b) (5 # 10)
          then Some (MatchInfo number name type (best_match_details b))
          else None
      | _, _, _ => None
      end
  end.

End Matcher.

(** A ratio function for worked examples: twice the length of the common
    prefix over the total length.  It is what [SequenceMatcher.ratio]
    returns when one string is a prefix of the other.  The theorems
    below hold for every ratio function. *)
Fixpoint common_prefix_length (a b : pystr) : nat :=
  match a, b with
  | x :: a', y :: b' => if N.eqb x y then S (common_prefix_length a' b') else 0
  | _, _ => 0
  end.

Definition prefix_ratio (a b : pystr) : Q :=
  match a, b with
  | [], [] => 1
  | _, _ => (Qnat (2 * common_prefix_length a b) / Qnat (length a + length b))%Q
  end.

(** ** Paths, files and the ledger *)

(** A path below the PDF folder: the directory components of its parent
    and its file name.  File names and document numbers are taken not to
    contain a path separator, so that [parent / name] is this pair and
    the relative path string printed into the ledger determines it. *)
Record path := Path { parent : list pystr; name : pystr }.

#[global] Instance path_eq_dec : EqDecision path.
Proof. solve_decision. Defined.

#[global] Instance path_countable : Countable path.
Proof.
  refine (inj_countable' (fun p => (parent p, name p))
            (fun dn => Path dn.1 dn.2) _).
  intros []; reflexivity.
Defined.

(** [name.rfind('.')], [None] standing for -1. *)
Fixpoint rfind_dot (s : pystr) : option nat :=
  match s with
  | [] => None
  | c :: s' =>
      match rfind_dot s' with
      | Some i => Some (S i)
      | None => if N.eqb c DOT then Some 0%nat else None
      end
  end.

(** The characters [pathlib] reads as path syntax inside a name: the
    separators [/] and [\] and the drive colon. *)
Definition is_path_syntax (c : N) : bool :=
  N.eqb c 47 || N.eqb c 92 || N.eqb c 58.

(** [PurePath.stem]: the name without its last suffix, the whole name
    when the last dot is its first or last character. *)
Definition path_stem (p : path) : pystr :=
  match rfind_dot (name p) with
  | Some i =>
      if (0 <? i)%nat && (i <? length (name p) - 1)%nat
      then firstn i (name p) else name p
  | None => name p
  end.

(** The in-memory ledger: a [dict] from the new relative path to the
    original one, in insertion order. *)
Abbreviation dict := (list (path * path)).

(** [d[k] = v] *)
Fixpoint dict_set (k v : path) (d : dict) : dict :=
  match d with
  | [] => [(k, v)]
  | (k', v') :: d' =>
      if decide (k' = k) then (k, v) :: d' else (k', v') :: dict_set k v d'
  end.

(** [d.get(k)] *)
Fixpoint dict_get (k : path) (d : dict) : option path :=
  match d with
  | [] => None
  | (k', v') :: d' => if decide (k' = k) then Some v' else dict_get k d'
  end.

(** [d.update(other)] *)
Definition dict_update (d other : dict) : dict :=
  fold_left (fun acc kv => dict_set kv.1 kv.2 acc) other d.

(** [rename_backup.json]: missing, not a readable JSON object, or the
    sequence of its members. *)
Inductive backup_file :=
  | Absent
  | Unreadable
  | Ledger (members : dict).

(** [json.load]: of members with the same key the last one wins. *)
Definition json_load (members : dict) : dict := dict_update [] members.

(** The PDF folder: its files other than the ledger (relative path to
    content), and the ledger file.  Directories are not entries. *)
Record world := World {
  files : gmap path N;
  backup : backup_file
}.

(** What the operating system refuses. *)
Record env := Env {
  rename_raises : path -> path -> bool;   (* permission, locked file, ... *)
  mkdir_raises : list pystr -> bool;      (* a component is not a directory *)
  backup_write_raises : bool              (* the ledger cannot be written *)
}.

Definition path_exists (fs : gmap path N) (p : path) : bool :=
  match fs !! p with
  | Some _ => true
  | None => false
  end.

(** [src.rename(dst)]: [None] when it raises.  An existing [dst] would
    be replaced, as [os.rename] does on POSIX. *)
Definition fs_rename (e : env) (fs : gmap path N) (src dst : path)
  : option (gmap path N) :=
  if rename_raises e src dst then None
  else match fs !! src with
       | None => None
       | Some content => Some (<[dst := content]> (delete src fs))
       end.

(** ** The matcher and the rename executor *)

Section Renamer.
Variable e : env.
Variable db : unicode_db.
Variable sequence_ratio : pystr -> pystr -> Q.

(** The loop [for pdf_file in pdf_files] that fills [matches]; the
    files it leaves out are the [unmatched_pdfs]. *)
Fixpoint find_matches (name_to_number : list (pystr * pystr))
    (pdf_files : list path) : list (path * match_info) :=
  match pdf_files with
  | [] => []
  | pdf_file :: rest =>
      match match_pdf db sequence_ratio (path_stem pdf_file) name_to_number with
      | Some info => (pdf_file, info) :: find_matches name_to_number rest
      | None => find_matches name_to_number rest
      end
  end.

(** [pdf_file.parent / f"{doc_number}{pdf_file.stem}.pdf"], for a
    document number that holds no path syntax ([is_path_syntax]): the
    new name is then a single component below the same parent.  A
    separator in the number would be read by [pathlib] as a directory
    boundary, which this definition does not follow. *)
Definition new_path_of (pdf_file : path) (doc_number : pystr) : path :=
  let new_filename := doc_number ++ path_stem pdf_file ++ py ".pdf" in
  Path (parent pdf_file) new_filename.

(** The variables of the renaming loop. *)
Record rename_state := RenameState {
  rs_files : gmap path N;
  rename_history : dict;
  renamed_count : nat
}.

(** The body of [for match_data in matches]. *)
Definition rename_one (st : rename_state) (match_data : path * match_info)
  : rename_state :=
  let pdf_file := match_data.1 in
  let new_path := new_path_of pdf_file (m_doc_number match_data.2) in
  if path_exists (rs_files st) new_path then st
  else
    let history := dict_set new_path pdf_file (rename_history st) in
    match fs_rename e (rs_files st) pdf_file new_path with
    | Some fs' => RenameState fs' history (S (renamed_count st))
    | None => RenameState (rs_files st) history (renamed_count st)
    end.

Definition rename_loop (matches : list (path * match_info))
    (st : rename_state) : rename_state :=
  fold_left rename_one matches st.

(** "Save rename history to a backup file": load the existing ledger,
    merge, write; any exception becomes a warning. *)
Definition save_history (history : dict) (bk : backup_file) : backup_file :=
  match history with
  | [] => bk
  | _ =>
      match bk with
      | Absent =>
          if backup_write_raises e then bk
          else Ledger (dict_update [] history)
      | Unreadable => bk
      | Ledger members =>
          if backup_write_raises e then bk
          else Ledger (dict_update (json_load members) history)
      end
  end.

(** The executor: everything after the confirmation prompt.  Returns
    the folder and [renamed_count]. *)
Definition perform_renaming (matches : list (path * match_info)) (w : world)
  : world * nat :=
  let st := rename_loop matches (RenameState (files w) [] 0) in
  (World (rs_files st) (save_history (rename_history st) (backup w)),
   renamed_count st).

(** [rename_pdfs_with_document_numbers], from the mapping read from the
    spreadsheet and the listing of the folder on; [proceed] is the
    answer to the confirmation prompt. *)
Definition rename_pdfs_with_document_numbers
    (name_to_number : list (pystr * pystr)) (pdf_files : list path)
    (proceed : bool) (w : world) : world * nat :=
  match name_to_number, pdf_files with
  | [], _ | _, [] => (w, 0%nat)
  | _, _ =>
      match find_matches name_to_number pdf_files with
      | [] => (w, 0%nat)
      | matches =>
          if proceed then perform_renaming matches w else (w, 0%nat)
      end
  end.

(** ** Undo *)

(** How the reverting loop ends: normally, or with an exception that
    is not caught per file. *)
Inductive undo_result :=
  | Undo_done (fs : gmap path N) (reverted_items : list path)
  | Undo_aborted (fs : gmap path N).

(** [for current_path, original_path, ... in revertible_files] *)
Fixpoint undo_loop (revertible_files : dict) (fs : gmap path N)
    (reverted_items : list path) : undo_result :=
  match revertible_files with
  | [] => Undo_done fs reverted_items
  | (current_path, original_path) :: rest =>
      if mkdir_raises e (parent original_path) then Undo_aborted fs
      else if path_exists fs original_path
              && negb (bool_decide (original_path = current_path))
      then undo_loop rest fs reverted_items
      else match fs_rename e fs current_path original_path with
           | Some fs' => undo_loop rest fs' (reverted_items ++ [current_path])
           | None => undo_loop rest fs reverted_items
           end
  end.

(** "Update backup file to remove successfully reverted items" *)
Definition prune_backup (backup_data : dict) (reverted_items : list path)
    (bk : backup_file) : backup_file :=
  match reverted_items with
  | [] => bk
  | _ =>
      if backup_write_raises e then bk
      else
        let updated_backup :=
          List.filter (fun kv => negb (bool_decide (kv.1 ∈ reverted_items)))
            backup_data in
        match updated_backup with
        | [] => Absent
        | _ => Ledger updated_backup
        end
  end.

(** [undo_renames]; [proceed] is the answer to the confirmation
    prompt. *)
Definition undo_renames (proceed : bool) (w : world) : world :=
  match backup w with
  | Absent => w
  | Unreadable => w
  | Ledger members =>
      let backup_data := json_load members in
      match backup_data with
      | [] => w
      | _ =>
          let revertible_files :=
            List.filter (fun kv => path_exists (files w) kv.1) backup_data in
          match revertible_files with
          | [] => w
          | _ =>
              if proceed then
                match undo_loop revertible_files (files w) [] with
                | Undo_done fs reverted_items =>
                    World fs (prune_backup backup_data reverted_items (backup w))
                | Undo_aborted fs => World fs (backup w)
                end
              else w
          end
      end
  end.

End Renamer.

(** The files a reverting loop leaves. *)
Definition undo_files (r : undo_result) : gmap path N :=
  match r with
  | Undo_done fs _ => fs
  | Undo_aborted fs => fs
  end.

(** The members of the ledger file, none when it is missing or
    unreadable. *)
Definition ledger_members (bk : backup_file) : dict :=
  match bk with
  | Ledger members => members
  | _ => []
  end.

(** The operating system refusing nothing. *)
Definition env_ok : env :=
  {| rename_raises := fun _ _ => false;
     mkdir_raises := fun _ => false;
     backup_write_raises := false |}.

(** The operating system refusing every rename (a locked folder). *)
Definition env_locked : env :=
  {| rename_raises := fun _ _ => true;
     mkdir_raises := fun _ => false;
     backup_write_raises := false |}.

Definition root_file (n : String.string) : path := Path [] (py n).

(** ** The statements of the specification, in its own words *)

Module Spec.

(** "Jaccard index of the two sets" *)
Definition jaccard (A B : gset pystr) : Q :=
  (Qnat (size (A ∩ B)) / Qnat (size (A ∪ B)))%Q.

(** "If either set is empty, returns 0.  Otherwise: Jaccard index of
    the two sets, plus a bonus of min(0.1 * |intersection|, 0.3),
    capped at 1.0." *)
Definition wordOverlapScore (A B : gset pystr) : Q :=
  if decide (A = ∅ ∨ B = ∅) then 0%Q
  else Qmin (jaccard A B + Qmin ((1 # 10) * Qnat (size (A ∩ B))) (3 # 10)) 1.

(** The file tokens that fuzzy-match some reference token, in order of
    occurrence. *)
Definition matched_tokens (fuzzy : pystr -> pystr -> bool)
    (fileTokens refTokens : list pystr) : list pystr :=
  List.filter (fun w => existsb (fuzzy w) refTokens) fileTokens.

(** "count distinct matched file tokens" *)
Definition distinct_matched (fuzzy : pystr -> pystr -> bool)
    (fileTokens refTokens : list pystr) : nat :=
  size (word_set (matched_tokens fuzzy fileTokens refTokens)).

(** The matched file tokens counted once per occurrence. *)
Definition matched_occurrences (fuzzy : pystr -> pystr -> bool)
    (fileTokens refTokens : list pystr) : nat :=
  length (matched_tokens fuzzy fileTokens refTokens).

End Spec.

(** ** The shape of cleaned text *)

Section NormalFormDef.
Variable db : unicode_db.

(** A character that survives cleaning unchanged: a word character
    other than the underscore that is not whitespace. *)
Definition solid (c : N) : bool :=
  negb (is_space db c) && is_word db c && negb (N.eqb c UNDERSCORE).

(** Every character is a single space or solid, and no space follows a
    space ([after_space] tells that the previous character was one). *)
Fixpoint single_spaced (after_space : bool) (r : pystr) : bool :=
  match r with
  | [] => true
  | c :: r' =>
      if N.eqb c SPACE then negb after_space && single_spaced true r'
      else solid c && single_spaced false r'
  end.

Definition ends_solid (r : pystr) : bool :=
  match rev r with
  | [] => true
  | c :: _ => negb (N.eqb c SPACE)
  end.

(** The shape of cleaned text: words of solid characters separated by
    single spaces, with no space at either end. *)
Definition normal_form (r : pystr) : Prop :=
  single_spaced true r = true /\ ends_solid r = true.

End NormalFormDef.

(** ** The rest of the script

    The reference table read from the spreadsheet, the preview and
    listing commands, the Word-to-PDF converter and the heat conduction
    calculator. *)

(** A [dict] with keys of any type with decidable equality, in insertion
    order. *)
Section PyDict.
Context {K V : Type} `{EqDecision K}.

(** [d[k] = v] *)
Fixpoint pydict_set (k : K) (v : V) (d : list (K * V)) : list (K * V) :=
  match d with
  | [] => [(k, v)]
  | (k', v') :: d' =>
      if decide (k' = k) then (k, v) :: d' else (k', v') :: pydict_set k v d'
  end.

(** [d.get(k)] *)
Fixpoint pydict_get (k : K) (d : list (K * V)) : option V :=
  match d with
  | [] => None
  | (k', v') :: d' => if decide (k' = k) then Some v' else pydict_get k d'
  end.

End PyDict.

(** [sorted(xs)] for a total order given by [leb]: insertion sort, which
    returns the one sorted arrangement when the order is antisymmetric on
    the elements. *)
Section Sorted.
Context {A : Type} (leb : A -> A -> bool).



End Sorted.


(** [s.endswith(suffix)] *)
Definition str_endswith (suffix s : pystr) : bool :=
  is_prefix (rev suffix) (rev s).

Section ReferenceTable.
Variable db : unicode_db.
(** [str(int(float(s)))], [None] when [float] or [int] raises. *)
Variable int_of_float_text : pystr -> option pystr.

(** [s.replace(c, '')] *)
Definition str_remove (c : N) (s : pystr) : pystr :=
  List.filter (fun x => negb (N.eqb x c)) s.

(** The cleaning of a document number cell: stripped, and a number that
    was read as a float ("1234.0") written as an integer. *)
Definition clean_document_number (doc_number : pystr) : pystr :=
  let clean_number := strip db doc_number in
  if existsb (N.eqb DOT) clean_number
     && str_isdigit db (str_remove HYPHEN (str_remove DOT clean_number))
  then match int_of_float_text clean_number with
       | Some converted => converted
       | None => clean_number
       end
  else clean_number.

(** A row of the sheet as the loop sees it: [str] of its cells in
    columns H and V, [None] for a cell that [pd.notna] rejects. *)
Abbreviation table_row := (option pystr * option pystr)%type.

(** [for index, row in df.iterrows()] with [name_to_number] and
    [valid_pairs]. *)
Fixpoint read_rows (rows : list table_row)
    (name_to_number : list (pystr * pystr)) (valid_pairs : nat)
  : list (pystr * pystr) * nat :=
  match rows with
  | [] => (name_to_number, valid_pairs)
  | (Some doc_name, Some doc_number) :: rest =>
      let clean_name := strip db doc_name in
      let clean_number := clean_document_number doc_number in
      read_rows rest (pydict_set clean_name clean_number name_to_number)
        (S valid_pairs)
  | _ :: rest => read_rows rest name_to_number valid_pairs
  end.

Definition read_name_to_number (rows : list table_row)
  : list (pystr * pystr) * nat :=
  read_rows rows [] 0.

End ReferenceTable.

(** [preview_excel_data]: the number it reports as "Valid document
    name-number pairs". *)
Fixpoint count_valid_pairs (rows : list (option pystr * option pystr))
    (valid_pairs : nat) : nat :=
  match rows with
  | [] => valid_pairs
  | (col_h, col_u) :: rest =>
      count_valid_pairs rest
        (match col_h, col_u with
         | Some _, Some _ => S valid_pairs
         | _, _ => valid_pairs
         end)
  end.

Definition preview_excel_data (rows : list (option pystr * option pystr)) : nat :=
  count_valid_pairs rows 0.

(** ** Listing the PDF files *)

Section Listing.
(** [os.sep] *)
Variable sep : N.






End Listing.

(** ** The Word-to-PDF converter *)

(** [os.path.splitext(filename)[0]] for a name without a directory
    separator, as [os.listdir] returns them: the name up to its last dot,
    unless only dots precede that dot. *)
Definition splitext_root (filename : pystr) : pystr :=
  match rfind_dot filename with
  | Some dotIndex =>
      if existsb (fun c => negb (N.eqb c DOT)) (firstn dotIndex filename)
      then firstn dotIndex filename
      else filename
  | None => filename
  end.

(** [convert_docm_to_pdf]: for the names [os.listdir] returns, the
    documents opened and the PDF names they are saved under, in order,
    Word raising nothing. *)
Fixpoint convert_docm_to_pdf (db : unicode_db) (listing : list pystr)
  : list (pystr * pystr) :=
  match listing with
  | [] => []
  | filename :: rest =>
      if str_endswith (py ".docx") (str_lower db filename) then
        let pdf_filename := splitext_root filename ++ py ".pdf" in
        (filename, pdf_filename) :: convert_docm_to_pdf db rest
      else convert_docm_to_pdf db rest
  end.

(** ** One-dimensional heat conduction *)

Section HeatConduction.
(** Wall thickness, conductivity, inner and outer temperature, inner and
    outer heat transfer coefficient. *)
Variables d k Ti Ta hi ha : Q.

Definition heat_C1 : Q :=
  (ha * hi * (Ta - Ti) / (k * ha + k * hi + d * ha * hi))%Q.

Definition heat_C2 : Q :=
  ((k * ha * Ta + k * hi * Ti + d * ha * hi * Ti)
   / (k * ha + k * hi + d * ha * hi))%Q.

Definition T_surface_inner : Q := heat_C2.
Definition T_surface_outer : Q := (heat_C1 * d + heat_C2)%Q.

(** [q = -k * C1] *)
Definition heat_q : Q := (- k * heat_C1)%Q.

Definition R_total : Q := (1 / hi + d / k + 1 / ha)%Q.
Definition q_alternative : Q := ((Ti - Ta) / R_total)%Q.

(** [np.linspace(0, d, 100)] and [T = C1 * x + C2] *)
Definition heat_x : list Q :=
  List.map (fun i => (Qnat i * (d / 99))%Q) (seq 0 100).
Definition heat_T : list Q :=
  List.map (fun x => (heat_C1 * x + heat_C2)%Q) heat_x.

Definition delta_T_inner : Q := (Ti - T_surface_inner)%Q.
Definition delta_T_wall : Q := (T_surface_inner - T_surface_outer)%Q.
Definition delta_T_outer : Q := (T_surface_outer - Ta)%Q.

Definition R_inner_percent : Q := ((1 / hi) / R_total * 100)%Q.
Definition R_wall_percent : Q := ((d / k) / R_total * 100)%Q.
Definition R_outer_percent : Q := ((1 / ha) / R_total * 100)%Q.

End HeatConduction.

(** The values [solve_heat_conduction] returns ([C1], [C2],
    [T_surface_inner], [T_surface_outer], [q], [R_total]) for the wall
    it is written for. *)
Definition solve_heat_conduction : Q * Q * Q * Q * Q * Q :=
  let d := 25 # 100 in
  let k := 15 # 100 in
  let Ti := 22%Q in
  let Ta := 2%Q in
  let hi := (1 / (13 # 100))%Q in
  let ha := (1 / (4 # 100))%Q in
  (heat_C1 d k Ti Ta hi ha, heat_C2 d k Ti Ta hi ha,
   T_surface_inner d k Ti Ta hi ha, T_surface_outer d k Ti Ta hi ha,
   heat_q d k Ti Ta hi ha, R_total d k hi ha).

(** ** Notions used to state the matcher's choice *)

(** What the cascade proposes for a file stem and one entry of the
    table. *)
Definition entry_candidate (db : unicode_db) (sequence_ratio : pystr -> pystr -> Q)
    (pdf_name : pystr) (entry : pystr * pystr) : option candidate :=
  cascade db sequence_ratio
    (clean_text_for_matching db pdf_name) (extract_meaningful_words db pdf_name 3)
    (clean_text_for_matching db entry.1) (extract_meaningful_words db entry.1 3).

(** An optional candidate scores at most [bound]. *)
Definition scores_at_most (bound : Q) (c : option candidate) : Prop :=
  match c with
  | None => True
  | Some c => (cand_score c <= bound)%Q
  end.

(** The range of the scores each strategy can propose. *)
Definition score_in_range (c : candidate) : Prop :=
  match cand_type c with
  | T_exact => False
  | T_word_overlap => (7 # 10 < cand_score c <= 1)%Q
  | T_substring => (48 # 100 < cand_score c <= 8 # 10)%Q
  | T_reverse => (45 # 100 < cand_score c <= 75 # 100)%Q
  | T_fuzzy_words => (42 # 100 < cand_score c <= 7 # 10)%Q
  | T_high_similarity => (51 # 100 < cand_score c)%Q
  end.

(** The heat flux on IEEE doubles, as the interpreter computes it. *)
Module DoublesHeat.

(** The literals [0.25], [0.15], [0.13], [0.04], and the tolerances
    [1e-12] and [1e-9]. *)
Definition lit_0_25 : float := 0x1p-2.
Definition lit_0_15 : float := 0x1.3333333333333p-3.
Definition lit_0_13 : float := 0x1.0a3d70a3d70a4p-3.
Definition lit_0_04 : float := 0x1.47ae147ae147bp-5.
Definition lit_1e_12 : float := 0x1.19799812dea11p-40.
Definition lit_1e_9 : float := 0x1.12e0be826d695p-30.

(** [q] and [q_alternative] of [solve_heat_conduction]. *)
Definition heat_flux : float * float :=
  let d := lit_0_25 in
  let k := lit_0_15 in
  let Ti := 22%float in
  let Ta := 2%float in
  let hi := (1 / lit_0_13)%float in
  let ha := (1 / lit_0_04)%float in
  let C1 := (ha * hi * (Ta - Ti) / (k * ha + k * hi + d * ha * hi))%float in
  let q := (- k * C1)%float in
  let R_total := (1 / hi + d / k + 1 / ha)%float in
  let q_alternative := ((Ti - Ta) / R_total)%float in
  (q, q_alternative).

End DoublesHeat.

(** What the matching loop knows after the entries [seen], none of them
    an exact match: nothing scored above 0 yet, or the best so far is an
    entry seen whose score no entry seen exceeds. *)
Definition best_so_far (db : unicode_db) (sequence_ratio : pystr -> pystr -> Q)
    (pdf_name : pystr) (seen : list (pystr * pystr)) (b : best) : Prop :=
  (b = best_init
   /\ Forall (fun e => scores_at_most 0
                         (entry_candidate db sequence_ratio pdf_name e)) seen)
  \/ exists e c,
       e ∈ seen
       /\ entry_candidate db sequence_ratio pdf_name e = Some c
       /\ b = Best (Some e.1) (cand_score c) (Some e.2) (Some (cand_type c))
                (cand_details c)
       /\ Forall (fun e' => scores_at_most (cand_score c)
                              (entry_candidate db sequence_ratio pdf_name e'))
            seen.


(** ** Basic facts *)

Lemma str_eqb_eq (a b : pystr) : str_eqb a b = true <-> a = b.
Proof.
  revert b; induction a as [|x a IH]; intros [|y b]; simpl; try easy.
  rewrite andb_true_iff, N.eqb_eq, IH. split.
  - intros [-> ->]; reflexivity.
  - intros [= -> ->]; auto.
Qed.

Lemma str_eqb_refl (a : pystr) : str_eqb a a = true.
Proof. apply str_eqb_eq; reflexivity. Qed.

Lemma str_eqb_neq (a b : pystr) : str_eqb a b = false <-> a <> b.
Proof.
  rewrite <- str_eqb_eq. destruct (str_eqb a b); split; congruence.
Qed.

Lemma Qgt_bool_true (x y : Q) : Qgt_bool x y = true <-> (y < x)%Q.
Proof.
  unfold Qgt_bool. rewrite negb_true_iff. split; intros H.
  - apply Qnot_le_lt. intros Hle. apply Qle_bool_iff in Hle. congruence.
  - destruct (Qle_bool x y) eqn:E; [|reflexivity].
    apply Qle_bool_iff in E. apply Qle_not_lt in E. contradiction.
Qed.

Lemma Qgt_bool_false (x y : Q) : Qgt_bool x y = false <-> (x <= y)%Q.
Proof.
  unfold Qgt_bool. rewrite negb_false_iff. apply Qle_bool_iff.
Qed.

Lemma Qnat_nonneg (n : nat) : (0 <= Qnat n)%Q.
Proof. unfold Qnat, Qle; simpl. lia. Qed.

Lemma Qnat_pos (n : nat) : (0 < n)%nat -> (0 < Qnat n)%Q.
Proof. intros H. unfold Qnat, Qlt; simpl. lia. Qed.

Lemma Qnat_div_nonneg (a b : nat) : (0 <= Qnat a / Qnat b)%Q.
Proof.
  unfold Qdiv. apply Qmult_le_0_compat; [apply Qnat_nonneg|].
  apply Qinv_le_0_compat, Qnat_nonneg.
Qed.

Lemma word_set_empty (words : list pystr) : word_set words = ∅ <-> words = [].
Proof.
  split; [|intros ->; reflexivity].
  destruct words as [|w ws]; [reflexivity|]. intros H.
  assert (Hw : w ∈ word_set (w :: ws)) by (apply elem_of_list_to_set; left).
  rewrite H in Hw. apply not_elem_of_empty in Hw. contradiction.
Qed.

(** ** Tokenizer *)

Example clean_example :
  clean_text_for_matching db_rows (py "Drawing_A1-(rev. 2)") = py "drawing a1 rev 2".
Proof. reflexivity. Qed.


(** C2 (as amended): with [min_length = 3] and the stop-word set of the
    implementation, which contains "new", the filename
    "the_new_report.pdf" tokenizes to ["report"; "pdf"], and its stem
    "the_new_report", which is what the matcher passes, to ["report"]. *)
Theorem tokenize_the_new_report (db : unicode_db) :
  extract_meaningful_words db (py "the_new_report.pdf") 3
    = [py "report"; py "pdf"]
  /\ extract_meaningful_words db (py "the_new_report") 3 = [py "report"]
  /\ str_in (py "new") stop_words = true.
Proof. repeat split; reflexivity. Qed.

(** C2 as stated fails: the token list is not ["new"; "report"]. *)
Lemma tokenize_not_new_report :
  extract_meaningful_words db_rows (py "the_new_report.pdf") 3
    <> [py "new"; py "report"].
Proof. vm_compute. discriminate. Qed.

(** ** Word overlap score *)

Lemma word_overlap_score_nonempty (pdf_words doc_words : list pystr) :
  pdf_words <> [] -> doc_words <> [] ->
  calculate_word_overlap_score pdf_words doc_words
  = Qmin (Qnat (size (word_set pdf_words ∩ word_set doc_words))
          / Qnat (size (word_set pdf_words ∪ word_set doc_words))
          + Qmin (Qnat (size (word_set pdf_words ∩ word_set doc_words)) * (1 # 10))
              (3 # 10)) 1.
Proof.
  intros Hp Hd. unfold calculate_word_overlap_score.
  destruct pdf_words as [|p ps]; [congruence|].
  destruct doc_words as [|d ds]; [congruence|].
  destruct (Nat.eqb_spec (size (word_set (p :: ps) ∪ word_set (d :: ds))) 0)
    as [Hz|_]; [|reflexivity].
  apply size_empty_iff in Hz.
  assert (Hp' : p ∈ word_set (p :: ps) ∪ word_set (d :: ds)).
  { apply elem_of_union. left. apply elem_of_list_to_set. left. }
  rewrite (Hz p) in Hp'. apply not_elem_of_empty in Hp'. contradiction.
Qed.

Lemma word_overlap_score_range (pdf_words doc_words : list pystr) :
  (0 <= calculate_word_overlap_score pdf_words doc_words <= 1)%Q.
Proof.
  destruct pdf_words as [|p ps]; [simpl; split; discriminate|].
  destruct doc_words as [|d ds]; [simpl; split; discriminate|].
  rewrite word_overlap_score_nonempty by discriminate.
  split; [|apply Q.le_min_r].
  apply Q.min_glb; [|discriminate].
  rewrite <- (Qplus_0_r 0). apply Qplus_le_compat.
  - apply Qnat_div_nonneg.
  - apply Q.min_glb; [|discriminate].
    apply Qmult_le_0_compat; [apply Qnat_nonneg|discriminate].
Qed.

(** C8: the word-overlap score of two token lists is the score the
    specification defines on their sets (0 when either set is empty,
    otherwise the Jaccard index plus min(0.1 * |intersection|, 0.3),
    capped at 1), and it lies in [0, 1]. *)
Theorem word_overlap_score_correct (pdf_words doc_words : list pystr) :
  (calculate_word_overlap_score pdf_words doc_words
   == Spec.wordOverlapScore (word_set pdf_words) (word_set doc_words))%Q
  /\ (word_set pdf_words = ∅ \/ word_set doc_words = ∅ ->
      calculate_word_overlap_score pdf_words doc_words = 0%Q)
  /\ (0 <= calculate_word_overlap_score pdf_words doc_words <= 1)%Q.
Proof.
  split; [|split; [|apply word_overlap_score_range]].
  - unfold Spec.wordOverlapScore.
    destruct (decide (word_set pdf_words = ∅ ∨ word_set doc_words = ∅))
      as [He|Hne].
    + rewrite !word_set_empty in He.
      destruct He as [-> | ->]; [reflexivity|].
      destruct pdf_words; reflexivity.
    + rewrite !word_set_empty in Hne.
      rewrite word_overlap_score_nonempty by tauto.
      unfold Spec.jaccard.
      rewrite (Qmult_comm (1 # 10)). reflexivity.
  - rewrite !word_set_empty. intros [-> | ->]; [reflexivity|].
    destruct pdf_words; reflexivity.
Qed.

(** On IEEE doubles the boundary is where the rational model has it: an
    intersection of 2 in a union of 4 (or of 4 in 10) gives exactly the
    double [0.7], which is not above the threshold; 3 matches out of 5
    give the double [0.6]. *)
Example doubles_word_overlap_boundary :
  PrimFloat.eqb (Doubles.word_overlap_score 2 4) Doubles.lit_0_7 = true
  /\ PrimFloat.ltb Doubles.lit_0_7 (Doubles.word_overlap_score 2 4) = false
  /\ PrimFloat.ltb Doubles.lit_0_7 (Doubles.word_overlap_score 4 10) = false
  /\ PrimFloat.ltb Doubles.lit_0_7 (Doubles.word_overlap_score 2 3) = true
  /\ PrimFloat.ltb Doubles.lit_0_6 (Doubles.fuzzy_score 3 5) = false
  /\ PrimFloat.ltb Doubles.lit_0_6 (Doubles.fuzzy_score 2 3) = true.
Proof. repeat split; vm_compute; reflexivity. Qed.

(** ** The strategy cascade *)

Section CascadeFacts.
Variable db : unicode_db.
Variable sequence_ratio : pystr -> pystr -> Q.

Lemma word_overlap_strategy_some (pdf_words doc_words : list pystr) c :
  word_overlap_strategy pdf_words doc_words = Some c ->
  cand_type c = T_word_overlap
  /\ cand_score c = calculate_word_overlap_score pdf_words doc_words
  /\ (7 # 10 < cand_score c)%Q
  /\ (2 <= length pdf_words)%nat /\ (2 <= length doc_words)%nat.
Proof.
  unfold word_overlap_strategy.
  destruct (_ && _) eqn:Hcond; [|discriminate].
  apply andb_true_iff in Hcond as [Hcond Hd].
  apply andb_true_iff in Hcond as [Hs Hp].
  apply Qgt_bool_true in Hs. apply Nat.leb_le in Hp, Hd.
  intros [= <-]; simpl. auto.
Qed.

Lemma substring_strategy_type clean_pdf_name clean_doc_name c :
  substring_strategy clean_pdf_name clean_doc_name = Some c ->
  cand_type c = T_substring \/ cand_type c = T_reverse.
Proof.
  unfold substring_strategy. intros H.
  repeat match type of H with
         | (if ?b then _ else _) = _ => destruct b
         end; inversion H; subst; simpl; auto.
Qed.

Lemma fuzzy_words_strategy_type pdf_words doc_words c :
  fuzzy_words_strategy db sequence_ratio pdf_words doc_words = Some c ->
  cand_type c = T_fuzzy_words.
Proof.
  unfold fuzzy_words_strategy. intros H.
  match type of H with (if ?b then _ else _) = _ => destruct b end;
    inversion H; reflexivity.
Qed.

Lemma high_similarity_strategy_some clean_pdf_name clean_doc_name c :
  high_similarity_strategy db sequence_ratio clean_pdf_name clean_doc_name
    = Some c ->
  cand_type c = T_high_similarity
  /\ (85 # 100 < similarity db sequence_ratio clean_pdf_name clean_doc_name)%Q
  /\ (6 < length clean_pdf_name)%nat /\ (6 < length clean_doc_name)%nat.
Proof.
  unfold high_similarity_strategy.
  destruct (_ && _) eqn:Hcond; [|discriminate].
  apply andb_true_iff in Hcond as [Hcond Hd].
  apply andb_true_iff in Hcond as [Hs Hp].
  apply Qgt_bool_true in Hs. apply Nat.ltb_lt in Hp, Hd.
  intros [= <-]; simpl. auto.
Qed.

(** C7: for token sequences of length at least 2 on both sides, a
    word-overlap score of exactly 0.7 records no WordOverlap candidate
    (neither the strategy nor the cascade yields one), while every
    score strictly above 0.7 records the WordOverlap candidate with
    that score. *)
Theorem word_overlap_threshold_strict
    (clean_pdf_name clean_doc_name : pystr) (pdf_words doc_words : list pystr) :
  (2 <= length pdf_words)%nat -> (2 <= length doc_words)%nat ->
  let score := calculate_word_overlap_score pdf_words doc_words in
  ((score == 7 # 10)%Q ->
     word_overlap_strategy pdf_words doc_words = None
     /\ forall c,
          cascade db sequence_ratio clean_pdf_name pdf_words
            clean_doc_name doc_words = Some c ->
          cand_type c <> T_word_overlap)
  /\ ((7 # 10 < score)%Q ->
      exists c,
        cand_score c = score /\ cand_type c = T_word_overlap
        /\ word_overlap_strategy pdf_words doc_words = Some c
        /\ cascade db sequence_ratio clean_pdf_name pdf_words
             clean_doc_name doc_words = Some c).
Proof.
  intros Hp Hd score. split.
  - intros Heq.
    assert (Hnone : word_overlap_strategy pdf_words doc_words = None).
    { unfold word_overlap_strategy. fold score.
      assert (Qgt_bool score (7 # 10) = false) as ->
        by (apply Qgt_bool_false; rewrite Heq; apply Qle_refl).
      reflexivity. }
    split; [exact Hnone|].
    intros c Hc. unfold cascade in Hc. rewrite Hnone in Hc.
    destruct (8 <? length clean_doc_name)%nat.
    + destruct (substring_strategy_type _ _ _ Hc) as [-> | ->]; discriminate.
    + destruct (_ && _).
      * rewrite (fuzzy_words_strategy_type _ _ _ Hc). discriminate.
      * destruct (high_similarity_strategy_some _ _ _ Hc) as [-> _].
        discriminate.
  - intros Hgt.
    assert (Hsome : word_overlap_strategy pdf_words doc_words
                    = Some (Candidate score T_word_overlap
                              (D_common (word_set pdf_words ∩ word_set doc_words)))).
    { unfold word_overlap_strategy. fold score.
      apply Qgt_bool_true in Hgt. rewrite Hgt.
      apply Nat.leb_le in Hp, Hd. rewrite Hp, Hd. reflexivity. }
    eexists. split; [|split; [|split; [exact Hsome|]]]; [reflexivity..|].
    unfold cascade. rewrite Hsome. reflexivity.
Qed.

(** The nested loops of strategy 4 count one per file token occurrence
    that has a matching reference token. *)
Lemma some_doc_word_matches_existsb pdf_word doc_words :
  some_doc_word_matches db sequence_ratio pdf_word doc_words
  = existsb (fun d => fuzzy_word_match db sequence_ratio pdf_word d (85 # 100))
      doc_words.
Proof.
  induction doc_words as [|d ds IH]; simpl; [reflexivity|].
  rewrite IH. destruct (fuzzy_word_match _ _ _ _ _); reflexivity.
Qed.

Lemma count_fuzzy_matches_acc pdf_words doc_words n :
  count_fuzzy_matches db sequence_ratio pdf_words doc_words n
  = (n + Spec.matched_occurrences
           (fun w d => fuzzy_word_match db sequence_ratio w d (85 # 100))
           pdf_words doc_words)%nat.
Proof.
  unfold Spec.matched_occurrences, Spec.matched_tokens.
  revert n; induction pdf_words as [|w ws IH]; intros n; simpl; [lia|].
  rewrite IH, some_doc_word_matches_existsb.
  destruct (existsb _ doc_words); simpl; lia.
Qed.

(** C3 (as amended): in the FuzzyWords strategy, for token sequences of
    length at least 2, the matched count is the number of file token
    occurrences (duplicates counted once each) that fuzzy-match some
    reference token; it is the number of distinct such tokens when the
    file tokens are pairwise distinct.  The fuzzy score is the matched
    count over max(|fileTokens|, |refTokens|), and a candidate is
    recorded iff the fuzzy score exceeds 0.6 and the matched count is
    at least 2, with final score fuzzy score * 0.7. *)
Theorem fuzzy_words_counts_occurrences (pdf_words doc_words : list pystr) :
  (2 <= length pdf_words)%nat -> (2 <= length doc_words)%nat ->
  let fuzzy w d := fuzzy_word_match db sequence_ratio w d (85 # 100) in
  let matched := count_fuzzy_matches db sequence_ratio pdf_words doc_words 0 in
  let fuzzy_score :=
    (Qnat matched / Qnat (Nat.max (length pdf_words) (length doc_words)))%Q in
  matched = Spec.matched_occurrences fuzzy pdf_words doc_words
  /\ (NoDup pdf_words ->
      matched = Spec.distinct_matched fuzzy pdf_words doc_words)
  /\ ((exists c, fuzzy_words_strategy db sequence_ratio pdf_words doc_words
                 = Some c)
      <-> (6 # 10 < fuzzy_score)%Q /\ (2 <= matched)%nat)
  /\ (forall c,
        fuzzy_words_strategy db sequence_ratio pdf_words doc_words = Some c ->
        cand_score c = (fuzzy_score * (7 # 10))%Q
        /\ cand_type c = T_fuzzy_words).
Proof.
  intros _ _ fuzzy matched fuzzy_score.
  assert (Hm : matched = Spec.matched_occurrences fuzzy pdf_words doc_words)
    by (unfold matched; rewrite count_fuzzy_matches_acc; reflexivity).
  split; [exact Hm|]. split; [|split].
  - intros Hnd. rewrite Hm.
    unfold Spec.distinct_matched, Spec.matched_occurrences, word_set.
    symmetry. apply size_list_to_set.
    apply NoDup_ListNoDup, List.NoDup_filter, NoDup_ListNoDup, Hnd.
  - unfold fuzzy_words_strategy. fold matched. fold fuzzy_score.
    rewrite <- Qgt_bool_true, <- Nat.leb_le, <- andb_true_iff.
    destruct (_ && _); split; intros H;
      [reflexivity | eauto | destruct H; discriminate | discriminate].
  - intros c. unfold fuzzy_words_strategy. fold matched. fold fuzzy_score.
    destruct (_ && _); intros [= <-]; auto.
Qed.

End CascadeFacts.

(** C3 as stated fails on duplicated file tokens: for the file tokens
    ["abc"; "abc"] and the reference tokens ["abc"; "xyz"] the code counts
    2 matches, while only 1 distinct file token matches. *)
Lemma fuzzy_words_counts_duplicates :
  count_fuzzy_matches db_rows prefix_ratio
    [py "abc"; py "abc"] [py "abc"; py "xyz"] 0
  <> Spec.distinct_matched
       (fun w d => fuzzy_word_match db_rows prefix_ratio w d (85 # 100))
       [py "abc"; py "abc"] [py "abc"; py "xyz"].
Proof. vm_compute. discriminate. Qed.

(** The duplicate decides the outcome: the file "abc abc.pdf" is matched
    to the entry "abc xyz" by the FuzzyWords strategy with 2 matches. *)
Example fuzzy_words_duplicates_match (db : unicode_db) ratio :
  count_fuzzy_matches db ratio [py "abc"; py "abc"] [py "abc"; py "xyz"] 0 = 2%nat
  /\ Spec.distinct_matched
       (fun w d => fuzzy_word_match db ratio w d (85 # 100))
       [py "abc"; py "abc"] [py "abc"; py "xyz"] = 1%nat
  /\ match_pdf db ratio (py "abc abc") [(py "abc xyz", py "7")]
     = Some (MatchInfo (py "7") (py "abc xyz") T_fuzzy_words (D_fuzzy 2)).
Proof. repeat split; vm_compute; reflexivity. Qed.

Lemma fuzzy_words_counts_occurrences_witness :
  let pdf_words := [py "abc"; py "abc"; py "report"] in
  let doc_words := [py "abc"; py "report"] in
  count_fuzzy_matches db_rows prefix_ratio pdf_words doc_words 0 = 3%nat
  /\ exists c,
       fuzzy_words_strategy db_rows prefix_ratio pdf_words doc_words = Some c
       /\ cand_score c = (Qnat 3 / Qnat 3 * (7 # 10))%Q.
Proof.
  intros pdf_words doc_words.
  destruct (fuzzy_words_counts_occurrences db_rows prefix_ratio
              pdf_words doc_words) as (Hm & _ & Hiff & Hscore);
    [simpl; lia | simpl; lia |].
  split; [exact Hm|].
  destruct (proj2 Hiff) as [c Hc].
  { split; [reflexivity | simpl; lia]. }
  exists c. split; [exact Hc|]. apply (Hscore c Hc).
Defined.

Lemma word_overlap_threshold_strict_witness :
  let pdf_words := [py "abc"; py "def"; py "ghi"; py "jkl"] in
  (calculate_word_overlap_score pdf_words [py "abc"; py "def"] == 7 # 10)%Q
  /\ word_overlap_strategy pdf_words [py "abc"; py "def"] = None
  /\ (7 # 10 < calculate_word_overlap_score pdf_words
                 [py "abc"; py "def"; py "ghi"])%Q
  /\ exists c,
       word_overlap_strategy pdf_words [py "abc"; py "def"; py "ghi"] = Some c.
Proof.
  intros pdf_words.
  assert (Heq : (calculate_word_overlap_score pdf_words [py "abc"; py "def"]
                 == 7 # 10)%Q) by reflexivity.
  assert (Hgt : (7 # 10 < calculate_word_overlap_score pdf_words
                            [py "abc"; py "def"; py "ghi"])%Q) by reflexivity.
  split; [exact Heq|]. split; [|split; [exact Hgt|]].
  - apply (word_overlap_threshold_strict db_rows prefix_ratio
             (py "abc def ghi jkl") (py "abc def") pdf_words
             [py "abc"; py "def"]); [simpl; lia | simpl; lia | exact Heq].
  - destruct (word_overlap_threshold_strict db_rows prefix_ratio
                (py "abc def ghi jkl") (py "abc def ghi") pdf_words
                [py "abc"; py "def"; py "ghi"]) as [_ H];
      [simpl; lia | simpl; lia |].
    destruct (H Hgt) as (c & _ & _ & Hc & _). exists c. exact Hc.
Defined.

(** At a word-overlap score of exactly 0.7 the pair falls through to the
    rest of the chain, where another strategy may record it. *)
Example word_overlap_boundary_falls_through (db : unicode_db) ratio :
  let pdf_words := [py "alphaaa"; py "betaaa"; py "xyz"; py "uvw"] in
  let doc_words := [py "alphaaa"; py "betaaa"] in
  (calculate_word_overlap_score pdf_words doc_words == 7 # 10)%Q
  /\ cascade db ratio (py "alphaaa betaaa xyz uvw") pdf_words
       (py "alphaaa betaaa") doc_words
     = Some (Candidate (112 # 220) T_substring (D_overlap (14 # 22))).
Proof. split; reflexivity. Qed.

(** ** The matcher loop *)

Section MatcherFacts.
Variable db : unicode_db.
Variable sequence_ratio : pystr -> pystr -> Q.

Lemma match_loop_exact clean_pdf_name pdf_words pre doc_name doc_number post b :
  Forall (fun e => clean_text_for_matching db e.1 <> clean_pdf_name) pre ->
  clean_text_for_matching db doc_name = clean_pdf_name ->
  match_loop db sequence_ratio clean_pdf_name pdf_words
    (pre ++ (doc_name, doc_number) :: post) b
  = Exact_break doc_name doc_number.
Proof.
  intros Hpre Heq. revert b.
  induction Hpre as [|[n k] pre Hne _ IH]; intros b; simpl.
  - rewrite <- Heq, str_eqb_refl. reflexivity.
  - simpl in Hne.
    assert (str_eqb clean_pdf_name (clean_text_for_matching db n) = false)
      as -> by (apply str_eqb_neq; congruence).
    apply IH.
Qed.

Lemma first_exact_entry clean_pdf_name (items : list (pystr * pystr)) :
  (exists e, e ∈ items /\ clean_text_for_matching db e.1 = clean_pdf_name) ->
  exists pre doc_name doc_number post,
    items = pre ++ (doc_name, doc_number) :: post
    /\ clean_text_for_matching db doc_name = clean_pdf_name
    /\ Forall (fun e => clean_text_for_matching db e.1 <> clean_pdf_name) pre.
Proof.
  induction items as [|[n k] items IH]; intros (e & Hin & He).
  - inversion Hin.
  - destruct (decide (clean_text_for_matching db n = clean_pdf_name)) as [Hn|Hn].
    + exists [], n, k, items. auto.
    + destruct IH as (pre & dn & dk & post & -> & Hd & Hpre).
      { exists e. split; [|exact He].
        apply elem_of_cons in Hin as [-> | Hin]; [contradiction|exact Hin]. }
      exists ((n, k) :: pre), dn, dk, post. repeat split; auto.
Qed.

(** C5: when the normalized stem of a file equals the normalized name
    of some reference entry, the matcher emits an Exact match with the
    first such entry, and does so as soon as it meets it: the entries
    that follow are not consulted (whatever they are, the result is
    the same), and no score of an earlier entry under another strategy
    changes it. *)
Theorem exact_match_precedence pdf_name (name_to_number : list (pystr * pystr)) :
  (exists e, e ∈ name_to_number
             /\ clean_text_for_matching db e.1
                = clean_text_for_matching db pdf_name) ->
  exists pre doc_name doc_number post,
    name_to_number = pre ++ (doc_name, doc_number) :: post
    /\ clean_text_for_matching db doc_name
       = clean_text_for_matching db pdf_name
    /\ Forall (fun e => clean_text_for_matching db e.1
                        <> clean_text_for_matching db pdf_name) pre
    /\ forall rest,
         match_pdf db sequence_ratio pdf_name
           (pre ++ (doc_name, doc_number) :: rest)
         = Some (MatchInfo doc_number doc_name T_exact D_perfect).
Proof.
  intros Hex.
  destruct (first_exact_entry _ _ Hex)
    as (pre & doc_name & doc_number & post & Hitems & Heq & Hpre).
  exists pre, doc_name, doc_number, post. repeat split; auto.
  intros rest. unfold match_pdf.
  rewrite (match_loop_exact _ _ pre doc_name doc_number rest _ Hpre Heq).
  reflexivity.
Qed.

(** C10: for a (file, reference) pair that is not an exact match, the
    cascade records a HighSimilarity candidate only when the normalized
    reference name has length 7 or 8 and at least one side has fewer
    than 2 meaningful tokens; for every other shape no HighSimilarity
    candidate can come out of the cascade. *)
Theorem high_similarity_shape pdf_name doc_name c :
  let clean_pdf_name := clean_text_for_matching db pdf_name in
  let clean_doc_name := clean_text_for_matching db doc_name in
  let pdf_words := extract_meaningful_words db pdf_name 3 in
  let doc_words := extract_meaningful_words db doc_name 3 in
  clean_pdf_name <> clean_doc_name ->
  cascade db sequence_ratio clean_pdf_name pdf_words clean_doc_name doc_words
    = Some c ->
  cand_type c = T_high_similarity ->
  (length clean_doc_name = 7 \/ length clean_doc_name = 8)%nat
  /\ (length pdf_words < 2 \/ length doc_words < 2)%nat.
Proof.
  intros cp cd pw dw _ Hc Ht. unfold cascade in Hc.
  destruct (word_overlap_strategy pw dw) as [c'|] eqn:Hwo.
  { injection Hc as ->.
    destruct (word_overlap_strategy_some _ _ _ Hwo) as [Ht' _]. congruence. }
  destruct (Nat.ltb_spec 8 (length cd)) as [Hlong|Hshort].
  { destruct (substring_strategy_type _ _ _ Hc); congruence. }
  destruct ((2 <=? length pw)%nat && (2 <=? length dw)%nat) eqn:Hboth.
  - apply fuzzy_words_strategy_type in Hc. congruence.
  - apply andb_false_iff in Hboth. rewrite !Nat.leb_gt in Hboth.
    apply high_similarity_strategy_some in Hc as (_ & _ & _ & Hlen).
    split; [lia | exact Hboth].
Qed.

End MatcherFacts.

Lemma exact_match_precedence_witness :
  let name_to_number :=
    [(py "Drawing A1 sheet", py "99"); (py "drawing a1", py "100");
     (py "Drawing-A1", py "101")] in
  exists doc_name doc_number,
    (doc_name, doc_number) ∈ name_to_number
    /\ match_pdf db_rows prefix_ratio (py "Drawing_A1") name_to_number
       = Some (MatchInfo doc_number doc_name T_exact D_perfect).
Proof.
  intros name_to_number.
  destruct (exact_match_precedence db_rows prefix_ratio (py "Drawing_A1")
              name_to_number)
    as (pre & doc_name & doc_number & post & Hitems & Heq & Hpre & Hres).
  - exists (py "drawing a1", py "100"). split; [|reflexivity].
    apply elem_of_cons; right. apply elem_of_cons; left. reflexivity.
  - exists doc_name, doc_number. rewrite Hitems. split; [|apply Hres].
    apply elem_of_app; right. apply elem_of_cons; left. reflexivity.
Defined.

Example exact_match_first_entry :
  match_pdf db_rows prefix_ratio (py "Drawing_A1")
    [(py "Drawing A1 sheet", py "99"); (py "drawing a1", py "100");
     (py "Drawing-A1", py "101")]
  = Some (MatchInfo (py "100") (py "drawing a1") T_exact D_perfect).
Proof. reflexivity. Qed.

(** The example of the specification: with the entries "Drawing A1" (100)
    and "Drawing A2" (101), the file "Drawing A1.pdf" is an exact match;
    "Drawing A2 (rev).pdf" has the tokens drawing, rev against drawing,
    fails the word-overlap strategy and is matched by the substring
    strategy with score 10/14 * 0.8. *)
Example drawing_example (db : unicode_db) ratio :
  let name_to_number := [(py "Drawing A1", py "100"); (py "Drawing A2", py "101")] in
  match_pdf db ratio (py "Drawing A1") name_to_number
  = Some (MatchInfo (py "100") (py "Drawing A1") T_exact D_perfect)
  /\ extract_meaningful_words db (py "Drawing A2 (rev)") 3
     = [py "drawing"; py "rev"]
  /\ match_pdf db ratio (py "Drawing A2 (rev)") name_to_number
     = Some (MatchInfo (py "101") (py "Drawing A2") T_substring
               (D_overlap (10 # 14))).
Proof. repeat split; reflexivity. Qed.

Lemma high_similarity_shape_witness :
  let c := Candidate (84 # 150) T_high_similarity (D_similarity (14 # 15)) in
  cascade db_rows prefix_ratio (py "abcdefg") [py "abcdefg"]
    (py "abcdefgh") [py "abcdefgh"] = Some c
  /\ (length (py "abcdefgh") = 7 \/ length (py "abcdefgh") = 8)%nat
  /\ (length [py "abcdefg"] < 2 \/ length [py "abcdefgh"] < 2)%nat.
Proof.
  intros c. split; [reflexivity|].
  apply (high_similarity_shape db_rows prefix_ratio
           (py "abcdefg") (py "abcdefgh") c);
    [discriminate | reflexivity | reflexivity].
Defined.

(** ** Normalization *)

Section NormalForm.
Variable db : unicode_db.

Lemma is_space_SPACE : is_space db SPACE = true.
Proof. reflexivity. Qed.

Lemma solid_not_space c : solid db c = true -> is_space db c = false.
Proof.
  unfold solid. destruct (is_space db c); simpl; [discriminate|reflexivity].
Qed.

Lemma solid_word c : solid db c = true -> is_word db c = true.
Proof.
  unfold solid. rewrite !andb_true_iff. tauto.
Qed.

Lemma solid_not_punct c :
  solid db c = true -> c <> UNDERSCORE /\ c <> HYPHEN /\ c <> DOT /\ c <> SPACE.
Proof.
  intros H. repeat split; intros ->; vm_compute in H; discriminate.
Qed.

Lemma single_spaced_chars b r c :
  single_spaced db b r = true -> c ∈ r -> c = SPACE \/ solid db c = true.
Proof.
  revert b; induction r as [|x r IH]; intros b H Hin; [inversion Hin|].
  simpl in H. apply elem_of_cons in Hin as [-> | Hin].
  - destruct (N.eqb_spec x SPACE); [auto|].
    apply andb_true_iff in H as [H _]. auto.
  - destruct (N.eqb x SPACE); apply andb_true_iff in H as [_ H]; eauto.
Qed.

Lemma single_spaced_weaken b r :
  single_spaced db b r = true -> single_spaced db false r = true.
Proof.
  destruct r as [|c r]; simpl; [auto|].
  destruct (N.eqb c SPACE); [|auto].
  rewrite !andb_true_iff. tauto.
Qed.

Lemma single_spaced_prefix b r1 r2 :
  single_spaced db b (r1 ++ r2) = true -> single_spaced db b r1 = true.
Proof.
  revert b; induction r1 as [|c r1 IH]; intros b; simpl; [auto|].
  destruct (N.eqb c SPACE); rewrite !andb_true_iff; intros [? ?]; eauto.
Qed.

(** *** Every stage leaves a text in normal form alone *)

Lemma replace_char_absent old new r :
  old ∉ r -> replace_char old new r = r.
Proof.
  unfold replace_char. induction r as [|c r IH]; intros Hnot; simpl;
    [reflexivity|].
  rewrite not_elem_of_cons in Hnot. destruct Hnot as [Hc Hr].
  rewrite IH by assumption.
  destruct (N.eqb_spec c old); [congruence|reflexivity].
Qed.

Lemma sub_nonword_fixed b r :
  single_spaced db b r = true -> sub_nonword db r = r.
Proof.
  unfold sub_nonword. revert b; induction r as [|c r IH]; intros b H;
    simpl; [reflexivity|].
  assert (Hc : c = SPACE \/ solid db c = true)
    by (eapply single_spaced_chars; [exact H | left]).
  simpl in H.
  assert (Hr : exists b', single_spaced db b' r = true).
  { destruct (N.eqb c SPACE); apply andb_true_iff in H as [_ H]; eauto. }
  destruct Hr as [b' Hr]. rewrite (IH b' Hr). f_equal.
  destruct Hc as [-> | Hc]; [reflexivity|].
  rewrite (solid_word c Hc). reflexivity.
Qed.

Lemma sub_spaces_from_fixed b r :
  single_spaced db b r = true -> sub_spaces_from db b r = r.
Proof.
  revert b; induction r as [|c r IH]; intros b H; simpl; [reflexivity|].
  simpl in H. destruct (N.eqb_spec c SPACE) as [-> | Hne].
  - apply andb_true_iff in H as [Hb H].
    destruct b; [discriminate|]. simpl. rewrite (IH true H). reflexivity.
  - apply andb_true_iff in H as [Hc H].
    rewrite (solid_not_space c Hc), (IH false H). reflexivity.
Qed.

Lemma lstrip_fixed r :
  single_spaced db true r = true -> lstrip db r = r.
Proof.
  destruct r as [|c r]; simpl; [reflexivity|].
  destruct (N.eqb c SPACE); simpl; [discriminate|].
  intros H. apply andb_true_iff in H as [Hc _].
  rewrite (solid_not_space c Hc). reflexivity.
Qed.

Lemma rstrip_fixed r :
  single_spaced db true r = true -> ends_solid r = true -> rstrip db r = r.
Proof.
  unfold ends_solid, rstrip. intros Hs He.
  destruct (rev r) as [|c l] eqn:Hrev.
  - simpl. rewrite <- (rev_involutive r), Hrev. reflexivity.
  - assert (Hin : c ∈ r).
    { apply list_elem_of_In, in_rev. rewrite Hrev. left. reflexivity. }
    destruct (single_spaced_chars _ _ _ Hs Hin) as [-> | Hc];
      [discriminate|].
    simpl. rewrite (solid_not_space c Hc).
    rewrite <- Hrev. apply rev_involutive.
Qed.

(** A text in normal form is a fixed point of the cleaning stages. *)
Lemma clean_text_cased_fixed r :
  normal_form db r -> clean_text_cased db r = r.
Proof.
  intros [Hs He]. unfold clean_text_cased.
  assert (Hno : forall x, (x = UNDERSCORE \/ x = HYPHEN \/ x = DOT) -> x ∉ r).
  { intros x Hx Hin.
    destruct (single_spaced_chars _ _ _ Hs Hin) as [-> | Hc].
    - destruct Hx as [Hx | [Hx | Hx]]; discriminate.
    - apply solid_not_punct in Hc. destruct Hx as [Hx | [Hx | Hx]]; tauto. }
  rewrite (replace_char_absent UNDERSCORE) by (apply Hno; auto).
  rewrite (replace_char_absent HYPHEN) by (apply Hno; auto).
  rewrite (replace_char_absent DOT) by (apply Hno; auto).
  rewrite (sub_nonword_fixed true r Hs).
  unfold sub_spaces.
  rewrite (sub_spaces_from_fixed false r (single_spaced_weaken _ _ Hs)).
  unfold strip. rewrite (lstrip_fixed r Hs). apply rstrip_fixed; assumption.
Qed.

(** *** The cleaning stages produce a text in normal form *)

Lemma sub_nonword_chars (s : pystr) :
  Forall (fun c => is_space db c = true \/ solid db c = true)
    (sub_nonword db
       (replace_char DOT SPACE
          (replace_char HYPHEN SPACE (replace_char UNDERSCORE SPACE s)))).
Proof.
  unfold sub_nonword, replace_char. rewrite !List.map_map.
  apply List.Forall_map, Forall_forall. intros c _.
  destruct (N.eqb_spec c UNDERSCORE) as [-> | Hu]; [left; reflexivity|].
  destruct (N.eqb_spec c HYPHEN) as [-> | Hh]; [left; reflexivity|].
  destruct (N.eqb_spec c DOT) as [-> | Hd]; [left; reflexivity|].
  destruct (is_space db c) eqn:Hsp.
  - rewrite orb_true_r. auto.
  - rewrite orb_false_r. destruct (is_word db c) eqn:Hw.
    + right. unfold solid. rewrite Hsp, Hw.
      apply N.eqb_neq in Hu. rewrite Hu. reflexivity.
    + left. reflexivity.
Qed.

Lemma sub_spaces_from_single_spaced b s :
  Forall (fun c => is_space db c = true \/ solid db c = true) s ->
  single_spaced db b (sub_spaces_from db b s) = true.
Proof.
  intros H. revert b. induction H as [|c s Hc _ IH]; intros b; simpl;
    [reflexivity|].
  destruct (is_space db c) eqn:Hsp.
  - destruct b; [apply IH|]. simpl. apply IH.
  - destruct Hc as [Hc | Hc]; [congruence|]. simpl.
    destruct (N.eqb_spec c SPACE) as [-> | _]; [discriminate Hsp|].
    rewrite Hc. apply IH.
Qed.

Lemma lstrip_single_spaced b r :
  single_spaced db b r = true -> single_spaced db true (lstrip db r) = true.
Proof.
  revert b; induction r as [|c r IH]; intros b H; simpl; [reflexivity|].
  simpl in H. destruct (N.eqb_spec c SPACE) as [-> | Hne].
  - apply andb_true_iff in H as [_ H]. simpl. eauto.
  - apply andb_true_iff in H as [Hc H].
    rewrite (solid_not_space c Hc). simpl.
    apply N.eqb_neq in Hne. rewrite Hne, Hc. exact H.
Qed.

Lemma lstrip_suffix r : exists pre, r = pre ++ lstrip db r.
Proof.
  induction r as [|c r [pre IH]]; simpl; [exists []; reflexivity|].
  destruct (is_space db c).
  - exists (c :: pre). simpl. congruence.
  - exists []. reflexivity.
Qed.

Lemma lstrip_head r :
  match lstrip db r with
  | [] => True
  | c :: _ => is_space db c = false
  end.
Proof.
  induction r as [|c r IH]; simpl; [exact I|].
  destruct (is_space db c) eqn:Hsp; [exact IH|exact Hsp].
Qed.

Lemma rstrip_normal_form r :
  single_spaced db true r = true -> normal_form db (rstrip db r).
Proof.
  intros Hs. unfold normal_form, rstrip, ends_solid.
  rewrite rev_involutive. split.
  - destruct (lstrip_suffix (rev r)) as [pre Hpre].
    apply (single_spaced_prefix true _ (rev pre)).
    rewrite <- rev_app_distr, <- Hpre, rev_involutive. exact Hs.
  - pose proof (lstrip_head (rev r)) as Hhd.
    destruct (lstrip db (rev r)) as [|c l]; [reflexivity|].
    destruct (N.eqb_spec c SPACE) as [-> | _]; [discriminate Hhd|reflexivity].
Qed.

Lemma clean_text_cased_normal_form s : normal_form db (clean_text_cased db s).
Proof.
  unfold clean_text_cased, strip, sub_spaces.
  apply rstrip_normal_form.
  apply (lstrip_single_spaced false).
  apply sub_spaces_from_single_spaced, sub_nonword_chars.
Qed.

End NormalForm.

(** Normalization is idempotent wherever lowercasing keeps the cleaned
    text in normal form and is itself stable. *)
Lemma normalize_idempotent_when_stable (db : unicode_db) (s : pystr) :
  let r := clean_text_for_matching db s in
  normal_form db r -> str_lower db r = r ->
  clean_text_for_matching db r = r.
Proof.
  intros r Hnf Hlow. unfold clean_text_for_matching at 1.
  rewrite (clean_text_cased_fixed db r Hnf). exact Hlow.
Qed.

(** *** ASCII text *)

Lemma ascii_cases (P : N -> bool) :
  forallb P (List.map N.of_nat (seq 0 128)) = true ->
  forall c, is_ascii c = true -> P c = true.
Proof.
  intros H c Hc. rewrite forallb_forall in H. apply H.
  apply N.ltb_lt in Hc.
  rewrite <- (N2Nat.id c). apply in_map, in_seq. lia.
Qed.

Section AsciiText.
Variable db : unicode_db.

Lemma ascii_lower_char c :
  is_ascii c = true ->
  is_ascii (ascii_lower c) = true
  /\ ascii_lower (ascii_lower c) = ascii_lower c
  /\ N.eqb (ascii_lower c) SPACE = N.eqb c SPACE
  /\ (solid db c = true -> solid db (ascii_lower c) = true).
Proof.
  intros Hc.
  pose proof (ascii_cases
    (fun c => is_ascii (ascii_lower c)
              && N.eqb (ascii_lower (ascii_lower c)) (ascii_lower c)
              && Bool.eqb (N.eqb (ascii_lower c) SPACE) (N.eqb c SPACE)
              && implb (solid db c) (solid db (ascii_lower c)))
    eq_refl c Hc) as H.
  simpl in H. rewrite !andb_true_iff in H.
  destruct H as [[[H1 H2] H3] H4].
  apply N.eqb_eq in H2. apply eqb_prop in H3.
  repeat split; auto.
  intros Hs. rewrite Hs in H4. exact H4.
Qed.

Lemma str_lower_ascii s :
  forallb is_ascii s = true -> str_lower db s = List.map ascii_lower s.
Proof. intros H. unfold str_lower. rewrite H. reflexivity. Qed.

Lemma ascii_lower_text s :
  forallb is_ascii s = true ->
  forallb is_ascii (List.map ascii_lower s) = true
  /\ List.map ascii_lower (List.map ascii_lower s) = List.map ascii_lower s.
Proof.
  induction s as [|c s IH]; simpl; [auto|].
  rewrite andb_true_iff. intros [Hc Hs].
  destruct (ascii_lower_char c Hc) as (H1 & H2 & _).
  destruct (IH Hs) as [IH1 IH2]. rewrite H1, H2, IH1, IH2. auto.
Qed.

Lemma ascii_lower_single_spaced b s :
  forallb is_ascii s = true ->
  single_spaced db b s = true ->
  single_spaced db b (List.map ascii_lower s) = true.
Proof.
  revert b; induction s as [|c s IH]; intros b; simpl; [auto|].
  rewrite andb_true_iff. intros [Hc Hs].
  destruct (ascii_lower_char c Hc) as (_ & _ & H3 & H4). rewrite H3.
  destruct (N.eqb c SPACE); rewrite !andb_true_iff; intros [? ?]; auto.
Qed.

Lemma ascii_lower_normal_form s :
  forallb is_ascii s = true ->
  normal_form db s -> normal_form db (List.map ascii_lower s).
Proof.
  intros Ha [Hs He]. split; [apply ascii_lower_single_spaced; assumption|].
  unfold ends_solid in *. rewrite <- List.map_rev.
  assert (Hrev : forallb is_ascii (rev s) = true).
  { apply forallb_forall. intros x Hx. apply in_rev in Hx.
    rewrite forallb_forall in Ha. auto. }
  destruct (rev s) as [|c l]; simpl in *; [reflexivity|].
  apply andb_true_iff in Hrev as [Hc _].
  destruct (ascii_lower_char c Hc) as (_ & _ & -> & _). exact He.
Qed.

(** The cleaning stages only keep characters of the input or insert
    spaces. *)
Lemma clean_text_cased_ascii s :
  forallb is_ascii s = true -> forallb is_ascii (clean_text_cased db s) = true.
Proof.
  intros Ha. unfold clean_text_cased, strip, rstrip, sub_spaces.
  set (u := sub_nonword db _).
  assert (Hu : Forall (fun c => is_ascii c = true) u).
  { unfold u, sub_nonword, replace_char. rewrite !List.map_map.
    apply List.Forall_map, Forall_forall. intros c Hin.
    assert (Hc : is_ascii c = true).
    { rewrite forallb_forall in Ha. apply Ha, list_elem_of_In, Hin. }
    repeat match goal with
           | |- context [if ?b then _ else _] => destruct b
           end; auto. }
  clearbody u.
  assert (Hv : forall b, Forall (fun c => is_ascii c = true)
                           (sub_spaces_from db b u)).
  { induction Hu as [|c u Hc _ IH]; intros b; simpl; [constructor|].
    destruct (is_space db c); [destruct b|]; auto. }
  specialize (Hv false). set (v := sub_spaces_from db false u) in *.
  clearbody v.
  assert (Hl : forall w, Forall (fun c => is_ascii c = true) w ->
                         Forall (fun c => is_ascii c = true) (lstrip db w)).
  { intros w Hw. induction Hw as [|c w Hc Hw IH]; simpl; [constructor|].
    destruct (is_space db c); auto. }
  apply forallb_forall. intros x Hx.
  rewrite <- in_rev in Hx.
  assert (Hall : Forall (fun c => is_ascii c = true)
                   (lstrip db (rev (lstrip db v)))).
  { apply Hl, Forall_rev, Hl, Hv. }
  rewrite Forall_forall in Hall. apply Hall, list_elem_of_In, Hx.
Qed.


End AsciiText.



Example normalize_dotted_capital_i :
  clean_text_for_matching db_rows [304%N] = [105%N; 775%N]
  /\ clean_text_for_matching db_rows [105%N; 775%N] = [105%N].
Proof. split; reflexivity. Qed.

(** ** Dictionaries *)

Lemma dict_get_set_eq k v d : dict_get k (dict_set k v d) = Some v.
Proof.
  induction d as [|[k' v'] d IH]; simpl.
  - rewrite decide_True by reflexivity. reflexivity.
  - destruct (decide (k' = k)) as [-> | Hne]; simpl.
    + rewrite decide_True by reflexivity. reflexivity.
    + rewrite decide_False by assumption. exact IH.
Qed.

Lemma dict_get_set_ne k k' v d :
  k <> k' -> dict_get k' (dict_set k v d) = dict_get k' d.
Proof.
  intros Hne. induction d as [|[k1 v1] d IH]; simpl.
  - rewrite decide_False by assumption. reflexivity.
  - destruct (decide (k1 = k)) as [-> | Hk1]; simpl.
    + rewrite !decide_False by assumption. reflexivity.
    + rewrite IH. reflexivity.
Qed.

Lemma dict_set_keys k v d k' :
  k' ∈ (dict_set k v d).*1 <-> k' = k \/ k' ∈ d.*1.
Proof.
  induction d as [|[k1 v1] d IH]; simpl.
  - rewrite list_elem_of_singleton.
    split; [auto | intros [H | H]; [exact H | inversion H]].
  - destruct (decide (k1 = k)) as [-> | Hk1]; simpl.
    + rewrite !elem_of_cons. tauto.
    + rewrite !elem_of_cons, IH. tauto.
Qed.

Lemma dict_set_NoDup k v d : NoDup d.*1 -> NoDup (dict_set k v d).*1.
Proof.
  induction d as [|[k1 v1] d IH]; simpl; intros Hnd.
  - apply NoDup_singleton.
  - apply NoDup_cons in Hnd as [Hk1 Hnd].
    destruct (decide (k1 = k)) as [-> | Hne]; simpl.
    + apply NoDup_cons. auto.
    + apply NoDup_cons. split; [|auto].
      rewrite dict_set_keys. intros [? | ?]; [congruence | contradiction].
Qed.



Lemma dict_get_none k d : k ∉ d.*1 -> dict_get k d = None.
Proof.
  induction d as [|[k1 v1] d IH]; simpl; intros Hnot; [reflexivity|].
  rewrite not_elem_of_cons in Hnot. destruct Hnot as [Hne Hnot].
  rewrite decide_False by congruence. auto.
Qed.

Lemma elem_dict_get k v d : NoDup d.*1 -> (k, v) ∈ d -> dict_get k d = Some v.
Proof.
  induction d as [|[k1 v1] d IH]; simpl; intros Hnd Hin; [inversion Hin|].
  apply NoDup_cons in Hnd as [Hk1 Hnd].
  apply elem_of_cons in Hin as [[= -> ->] | Hin].
  - rewrite decide_True by reflexivity. reflexivity.
  - destruct (decide (k1 = k)) as [-> | Hne]; [|auto].
    exfalso. apply Hk1. apply list_elem_of_fmap. exists (k, v). auto.
Qed.

Lemma dict_update_NoDup d other : NoDup d.*1 -> NoDup (dict_update d other).*1.
Proof.
  unfold dict_update. revert d.
  induction other as [|[k v] other IH]; intros d Hnd; simpl; [exact Hnd|].
  apply IH, dict_set_NoDup, Hnd.
Qed.

Lemma dict_get_update_absent k d other :
  k ∉ other.*1 -> dict_get k (dict_update d other) = dict_get k d.
Proof.
  unfold dict_update. revert d.
  induction other as [|[k1 v1] other IH]; intros d Hnot; simpl; [reflexivity|].
  rewrite fmap_cons, not_elem_of_cons in Hnot. destruct Hnot as [Hne Hnot].
  rewrite IH by assumption. apply dict_get_set_ne. simpl in Hne. congruence.
Qed.

Lemma dict_get_update k v d other :
  NoDup other.*1 -> dict_get k other = Some v ->
  dict_get k (dict_update d other) = Some v.
Proof.
  revert d. induction other as [|[k1 v1] other IH]; intros d Hnd Hget;
    [discriminate|].
  rewrite fmap_cons in Hnd. apply NoDup_cons in Hnd as [Hk1 Hnd].
  simpl in Hget. change (dict_update d ((k1, v1) :: other))
    with (dict_update (dict_set k1 v1 d) other).
  destruct (decide (k1 = k)) as [-> | Hne].
  - injection Hget as ->.
    rewrite dict_get_update_absent by assumption. apply dict_get_set_eq.
  - apply IH; assumption.
Qed.


Lemma json_load_NoDup members : NoDup (json_load members).*1.
Proof. apply dict_update_NoDup, NoDup_nil_2. Qed.


(** ** The file system *)


Lemma path_exists_false fs p : path_exists fs p = false <-> fs !! p = None.
Proof.
  unfold path_exists. destruct (fs !! p); split; intros H;
    try reflexivity; discriminate.
Qed.

Section FileSystemFacts.
Variable e : env.

Lemma fs_rename_some fs src dst fs' :
  fs_rename e fs src dst = Some fs' ->
  rename_raises e src dst = false
  /\ exists content,
       fs !! src = Some content /\ fs' = <[dst := content]> (delete src fs).
Proof.
  unfold fs_rename. destruct (rename_raises e src dst); [discriminate|].
  destruct (fs !! src) as [content|]; [|discriminate].
  intros [= <-]. eauto.
Qed.

(** A rename onto a free path, or onto the file itself, leaves every
    other file where it is ... *)
Lemma fs_rename_frame fs src dst fs' p c :
  fs_rename e fs src dst = Some fs' ->
  fs !! dst = None \/ dst = src ->
  fs !! p = Some c -> p <> src -> fs' !! p = Some c.
Proof.
  intros Hr Hdst Hp Hne.
  apply fs_rename_some in Hr as (_ & content & Hsrc & ->).
  destruct (decide (dst = p)) as [-> | Hdp].
  - destruct Hdst as [Hnone | ->]; congruence.
  - rewrite lookup_insert_ne, lookup_delete_ne by congruence. exact Hp.
Qed.

(** ... and keeps the number of files. *)
Lemma fs_rename_size fs src dst fs' :
  fs_rename e fs src dst = Some fs' ->
  fs !! dst = None \/ dst = src ->
  size fs' = size fs.
Proof.
  intros Hr Hdst.
  apply fs_rename_some in Hr as (_ & content & Hsrc & ->).
  destruct (decide (dst = src)) as [-> | Hne].
  - rewrite insert_delete_eq, insert_id by assumption. reflexivity.
  - destruct Hdst as [Hnone | ?]; [|contradiction].
    rewrite map_size_insert_None by (rewrite lookup_delete_ne; congruence).
    rewrite map_size_delete_Some by eauto.
    assert (size fs <> 0%nat); [|lia].
    apply map_size_non_empty_iff. intros ->. rewrite lookup_empty in Hsrc.
    discriminate.
Qed.

End FileSystemFacts.

(** ** The rename executor *)

Section RenameFacts.
Variable e : env.

Lemma rename_one_collision st match_data :
  path_exists (rs_files st)
    (new_path_of match_data.1 (m_doc_number match_data.2)) = true ->
  rename_one e st match_data = st.
Proof. intros H. unfold rename_one. rewrite H. reflexivity. Qed.

(** The entry is written into [rename_history] before the rename is
    attempted, and stays there when the rename raises. *)
Lemma rename_one_failure_recorded st match_data :
  let new_path := new_path_of match_data.1 (m_doc_number match_data.2) in
  path_exists (rs_files st) new_path = false ->
  fs_rename e (rs_files st) match_data.1 new_path = None ->
  rename_one e st match_data
  = RenameState (rs_files st)
      (dict_set new_path match_data.1 (rename_history st))
      (renamed_count st).
Proof.
  intros new_path Hfree Hraise. unfold rename_one. fold new_path.
  rewrite Hfree, Hraise. reflexivity.
Qed.

Lemma rename_one_frame st match_data p c :
  rs_files st !! p = Some c -> p <> match_data.1 ->
  rs_files (rename_one e st match_data) !! p = Some c.
Proof.
  intros Hp Hne. unfold rename_one.
  destruct (path_exists _ _) eqn:Hex; [exact Hp|].
  apply path_exists_false in Hex.
  destruct (fs_rename e _ _ _) as [fs'|] eqn:Hr; simpl; [|exact Hp].
  eapply fs_rename_frame; eauto.
Qed.

Lemma rename_one_size st match_data :
  size (rs_files (rename_one e st match_data)) = size (rs_files st).
Proof.
  unfold rename_one.
  destruct (path_exists _ _) eqn:Hex; [reflexivity|].
  apply path_exists_false in Hex.
  destruct (fs_rename e _ _ _) as [fs'|] eqn:Hr; simpl; [|reflexivity].
  eapply fs_rename_size; eauto.
Qed.

Lemma rename_loop_frame matches st p c :
  rs_files st !! p = Some c -> p ∉ matches.*1 ->
  rs_files (rename_loop e matches st) !! p = Some c.
Proof.
  unfold rename_loop. revert st.
  induction matches as [|m matches IH]; intros st Hp Hnot; simpl;
    [exact Hp|].
  rewrite fmap_cons, not_elem_of_cons in Hnot. destruct Hnot as [Hm Hrest].
  apply IH; [|exact Hrest]. apply rename_one_frame; assumption.
Qed.

Lemma rename_loop_size matches st :
  size (rs_files (rename_loop e matches st)) = size (rs_files st).
Proof.
  unfold rename_loop. revert st.
  induction matches as [|m matches IH]; intros st; simpl; [reflexivity|].
  rewrite IH. apply rename_one_size.
Qed.

End RenameFacts.

(** ** Undo *)

Section UndoFacts.
Variable e : env.

Lemma undo_loop_collision current_path original_path rest fs reverted_items :
  mkdir_raises e (parent original_path) = false ->
  path_exists fs original_path = true ->
  original_path <> current_path ->
  undo_loop e ((current_path, original_path) :: rest) fs reverted_items
  = undo_loop e rest fs reverted_items.
Proof.
  intros Hmk Hex Hne. simpl. rewrite Hmk, Hex.
  rewrite bool_decide_eq_false_2 by assumption. reflexivity.
Qed.

Lemma undo_guard_false fs current_path original_path :
  path_exists fs original_path
  && negb (bool_decide (original_path = current_path)) = false ->
  fs !! original_path = None \/ original_path = current_path.
Proof.
  intros H. apply andb_false_iff in H as [H | H].
  - left. apply path_exists_false, H.
  - right. apply negb_false_iff, bool_decide_eq_true in H. exact H.
Qed.

Lemma undo_loop_frame revertible_files fs reverted_items p c :
  fs !! p = Some c -> p ∉ revertible_files.*1 ->
  undo_files (undo_loop e revertible_files fs reverted_items) !! p = Some c.
Proof.
  revert fs reverted_items.
  induction revertible_files as [|[cur orig] rest IH];
    intros fs items Hp Hnot; simpl; [exact Hp|].
  rewrite fmap_cons, not_elem_of_cons in Hnot. destruct Hnot as [Hcur Hrest].
  destruct (mkdir_raises e (parent orig)); [exact Hp|].
  destruct (path_exists fs orig && _) eqn:Hguard; [apply IH; assumption|].
  apply undo_guard_false in Hguard.
  destruct (fs_rename e fs cur orig) as [fs'|] eqn:Hr; [|apply IH; assumption].
  apply IH; [|exact Hrest]. eapply fs_rename_frame; eauto.
Qed.

Lemma undo_loop_size revertible_files fs reverted_items :
  size (undo_files (undo_loop e revertible_files fs reverted_items)) = size fs.
Proof.
  revert fs reverted_items.
  induction revertible_files as [|[cur orig] rest IH]; intros fs items;
    simpl; [reflexivity|].
  destruct (mkdir_raises e (parent orig)); [reflexivity|].
  destruct (path_exists fs orig && _) eqn:Hguard; [apply IH|].
  apply undo_guard_false in Hguard.
  destruct (fs_rename e fs cur orig) as [fs'|] eqn:Hr; [|apply IH].
  rewrite IH. eapply fs_rename_size; eauto.
Qed.

(** The files after [undo_renames] are those the reverting loop leaves,
    run on some part of the ledger, or the files before. *)
Lemma undo_renames_files proceed w :
  files (undo_renames e proceed w) = files w
  \/ exists members revertible_files,
       backup w = Ledger members
       /\ revertible_files.*1 ⊆ (json_load members).*1
       /\ files (undo_renames e proceed w)
          = undo_files (undo_loop e revertible_files (files w) []).
Proof.
  unfold undo_renames.
  destruct (backup w) as [| |members] eqn:Hb; auto.
  destruct (json_load members) as [|kv0 data] eqn:Hload; auto.
  set (backup_data := kv0 :: data).
  destruct (List.filter _ backup_data) as [|kv1 rev'] eqn:Hrev; auto.
  destruct proceed; auto.
  right. exists members, (kv1 :: rev'). split; [reflexivity|]. split.
  - rewrite Hload, <- Hrev. intros k Hk.
    apply list_elem_of_fmap in Hk as (kv & -> & Hkv).
    apply list_elem_of_fmap. exists kv. split; [reflexivity|].
    apply list_elem_of_In in Hkv. apply List.filter_In in Hkv as [Hkv _].
    apply list_elem_of_In, Hkv.
  - destruct (undo_loop e (kv1 :: rev') (files w) []); reflexivity.
Qed.

End UndoFacts.

Section RenamePassFacts.
Variable e : env.
Variable db : unicode_db.
Variable sequence_ratio : pystr -> pystr -> Q.

Lemma find_matches_sources name_to_number pdf_files p :
  p ∈ (find_matches db sequence_ratio name_to_number pdf_files).*1 ->
  p ∈ pdf_files.
Proof.
  induction pdf_files as [|f rest IH]; simpl; [auto|].
  destruct (match_pdf db sequence_ratio (path_stem f) name_to_number);
    [rewrite fmap_cons|]; rewrite !elem_of_cons; simpl; tauto.
Qed.

Lemma perform_renaming_frame matches w :
  let w' := (perform_renaming e matches w).1 in
  size (files w') = size (files w)
  /\ forall p c, files w !! p = Some c -> p ∉ matches.*1 ->
                 files w' !! p = Some c.
Proof.
  simpl. split.
  - apply (rename_loop_size e matches (RenameState (files w) [] 0)).
  - intros p c Hp Hnot.
    apply (rename_loop_frame e matches (RenameState (files w) [] 0)); assumption.
Qed.

Lemma rename_pdfs_frame name_to_number pdf_files proceed w :
  let w' := (rename_pdfs_with_document_numbers e db sequence_ratio
               name_to_number pdf_files proceed w).1 in
  size (files w') = size (files w)
  /\ forall p c, files w !! p = Some c -> p ∉ pdf_files ->
                 files w' !! p = Some c.
Proof.
  unfold rename_pdfs_with_document_numbers.
  destruct name_to_number as [|entry entries]; [simpl; auto|].
  destruct pdf_files as [|f rest]; [simpl; auto|].
  destruct (find_matches _ _ _ _) as [|m matches] eqn:Hm; [simpl; auto|].
  destruct proceed; [|simpl; auto].
  destruct (perform_renaming_frame (m :: matches) w) as [Hsize Hframe].
  split; [exact Hsize|].
  intros p c Hp Hnot. apply Hframe; [exact Hp|].
  intros Hin. apply Hnot. rewrite <- Hm in Hin.
  apply find_matches_sources in Hin. exact Hin.
Qed.

End RenamePassFacts.

(** C6: neither pass overwrites or deletes a file that is already
    there.  A rename whose target exists is skipped, and an undo entry
    whose original path exists and differs from the current path is
    skipped, both leaving all files as they are; over a whole pass every
    file that is not itself being moved (not a listed PDF, not a current
    path of the ledger) keeps its path and content, and the number of
    files does not change. *)
Theorem no_overwrite e db sequence_ratio :
  (forall st match_data,
     path_exists (rs_files st)
       (new_path_of match_data.1 (m_doc_number match_data.2)) = true ->
     rename_one e st match_data = st)
  /\ (forall current_path original_path rest fs reverted_items,
        mkdir_raises e (parent original_path) = false ->
        path_exists fs original_path = true ->
        original_path <> current_path ->
        undo_loop e ((current_path, original_path) :: rest) fs reverted_items
        = undo_loop e rest fs reverted_items)
  /\ (forall name_to_number pdf_files proceed w,
        let w' := (rename_pdfs_with_document_numbers e db sequence_ratio
                     name_to_number pdf_files proceed w).1 in
        size (files w') = size (files w)
        /\ forall p c, files w !! p = Some c -> p ∉ pdf_files ->
                       files w' !! p = Some c)
  /\ (forall proceed w,
        let w' := undo_renames e proceed w in
        size (files w') = size (files w)
        /\ forall p c members,
             files w !! p = Some c -> backup w = Ledger members ->
             p ∉ (json_load members).*1 ->
             files w' !! p = Some c).
Proof.
  split; [apply rename_one_collision|].
  split; [apply undo_loop_collision|].
  split.
  - intros name_to_number pdf_files proceed w. apply rename_pdfs_frame.
  - intros proceed w. simpl.
    destruct (undo_renames_files e proceed w)
      as [-> | (members & revertible & Hb & Hsub & ->)].
    + split; [reflexivity|]. auto.
    + split; [apply undo_loop_size|].
      intros p c members' Hp Hb' Hnot.
      rewrite Hb in Hb'. injection Hb' as <-.
      apply undo_loop_frame; [exact Hp|]. intros Hin. apply Hnot, Hsub, Hin.
Qed.

(** A collision in each direction: "a.pdf" is not renamed onto the
    existing "100a.pdf", and undo does not move "100a.pdf" back onto an
    existing "a.pdf"; files and ledger stay as they are. *)
Example collisions_are_skipped :
  let fs : gmap path N :=
    {[ root_file "a.pdf" := 1%N; root_file "100a.pdf" := 2%N ]} in
  let ledger := Ledger [(root_file "100a.pdf", root_file "a.pdf")] in
  rename_pdfs_with_document_numbers env_ok db_rows prefix_ratio
    [(py "a", py "100")] [root_file "a.pdf"; root_file "100a.pdf"] true
    (World fs Absent)
  = (World fs Absent, 0%nat)
  /\ undo_renames env_ok true (World fs ledger) = World fs ledger.
Proof. split; vm_compute; reflexivity. Qed.

(** C1, the code at a failing rename: the folder holds "a.pdf", the
    reference table maps "a" to "100", and the operating system refuses
    the rename.  The file is counted as not renamed and stays where it
    is, but the ledger that is written has the key "100a.pdf", a path
    that does not exist. *)
Theorem failed_rename_stays_in_ledger :
  let w := World {[ root_file "a.pdf" := 1%N ]} Absent in
  let result :=
    rename_pdfs_with_document_numbers env_locked db_rows prefix_ratio
      [(py "a", py "100")] [root_file "a.pdf"] true w in
  result.2 = 0%nat
  /\ files result.1 = files w
  /\ backup result.1 = Ledger [(root_file "100a.pdf", root_file "a.pdf")]
  /\ path_exists (files result.1) (root_file "100a.pdf") = false.
Proof. vm_compute. repeat split; reflexivity. Qed.

(** ** Rename, then undo *)

Section RoundTrip.
Variable e : env.









End RoundTrip.



Section UndoSkip.
Variable e : env.



End UndoSkip.



(** A plain round trip: one file renamed, then reverted; the folder is as
    before and the ledger file is gone. *)
Example rename_undo_round_trip :
  let w := World {[ root_file "a.pdf" := 1%N ]} Absent in
  let result :=
    rename_pdfs_with_document_numbers env_ok db_rows prefix_ratio
      [(py "a", py "100")] [root_file "a.pdf"] true w in
  result
  = (World {[ root_file "100a.pdf" := 1%N ]}
       (Ledger [(root_file "100a.pdf", root_file "a.pdf")]), 1%nat)
  /\ undo_renames env_ok true result.1 = w.
Proof. split; vm_compute; reflexivity. Qed.


(** A second run of undo completes the chain: "ab.pdf" is free by then. *)
Example rename_then_undo_chain_second_run :
  let w := World {[ root_file "ab.pdf" := 1%N; root_file "b.pdf" := 2%N ]}
             Absent in
  let result :=
    rename_pdfs_with_document_numbers env_ok db_rows prefix_ratio
      [(py "ab", py "1"); (py "b", py "a")]
      [root_file "ab.pdf"; root_file "b.pdf"] true w in
  undo_renames env_ok true (undo_renames env_ok true result.1) = w.
Proof. vm_compute. reflexivity. Qed.

(** * Further properties of the script *)

(** ** The matcher's choice among the entries *)

(** Two scores of equal exact value that differ on doubles: a fuzzy
    match of 2 words out of 2 scores [1.0 * 0.7], a substring of 14
    characters out of 16 scores [0.875 * 0.8]; both are 7/10 exactly,
    and on doubles the first is below the second. *)
Example doubles_tied_scores :
  PrimFloat.ltb (Doubles.fuzzy_score 2 2 * Doubles.lit_0_7)%float
    (Doubles.of_nat 14 / Doubles.of_nat 16 * 0x1.999999999999ap-1)%float
  = true
  /\ (Qnat 2 / Qnat 2 * (7 # 10) == Qnat 14 / Qnat 16 * (8 # 10))%Q.
Proof. split; vm_compute; reflexivity. Qed.

Section MatcherChoice.
Variable db : unicode_db.
Variable sequence_ratio : pystr -> pystr -> Q.

Lemma match_loop_app clean_pdf_name pdf_words items1 items2 b :
  match_loop db sequence_ratio clean_pdf_name pdf_words (items1 ++ items2) b
  = match match_loop db sequence_ratio clean_pdf_name pdf_words items1 b with
    | Exact_break doc_name doc_number => Exact_break doc_name doc_number
    | Exhausted b' =>
        match_loop db sequence_ratio clean_pdf_name pdf_words items2 b'
    end.
Proof.
  revert b. induction items1 as [|[n k] items1 IH]; intros b;
    cbn [app match_loop]; [reflexivity|].
  destruct (str_eqb _ _); [reflexivity|]. apply IH.
Qed.

(** An entry with an empty name proposes nothing. *)
Lemma entry_candidate_empty_name pdf_name doc_number :
  entry_candidate db sequence_ratio pdf_name ([], doc_number) = None.
Proof.
  unfold entry_candidate. simpl fst.
  change (clean_text_for_matching db []) with (@nil N).
  change (extract_meaningful_words db [] 3) with (@nil pystr).
  unfold cascade, word_overlap_strategy, high_similarity_strategy.
  change (2 <=? length (@nil pystr))%nat with false.
  change (8 <? length (@nil N))%nat with false.
  change (6 <? length (@nil N))%nat with false.
  rewrite !andb_false_r. reflexivity.
Qed.

Lemma scores_relax q q' c :
  (q <= q')%Q -> scores_at_most q c -> scores_at_most q' c.
Proof. destruct c as [c|]; simpl; [|auto]. intros. lra. Qed.

Lemma best_so_far_step pdf_name seen b doc_name doc_number :
  best_so_far db sequence_ratio pdf_name seen b ->
  best_so_far db sequence_ratio pdf_name (seen ++ [(doc_name, doc_number)])
    (update_best doc_name doc_number
       (entry_candidate db sequence_ratio pdf_name (doc_name, doc_number)) b).
Proof.
  intros Hinv. unfold update_best.
  destruct (entry_candidate db sequence_ratio pdf_name (doc_name, doc_number))
    as [c'|] eqn:Hc'.
  - destruct (Qgt_bool (cand_score c') (best_score b)) eqn:Hgt.
    + apply Qgt_bool_true in Hgt. right.
      exists (doc_name, doc_number), c'. cbn [fst snd].
      split; [apply elem_of_app; right; left|].
      split; [exact Hc'|]. split; [reflexivity|].
      apply Forall_app. split; [|apply Forall_singleton].
      * destruct Hinv as [[-> Hall] | (e & c & Hin & Hc & -> & Hall)];
          cbn [best_score best_init] in Hgt;
          (eapply Forall_impl; [exact Hall|]);
          intros e'; apply scores_relax; lra.
      * rewrite Hc'. cbn [scores_at_most]. lra.
    + apply Qgt_bool_false in Hgt.
      destruct Hinv as [[-> Hall] | (e & c & Hin & Hc & -> & Hall)].
      * left. split; [reflexivity|]. apply Forall_app. split; [exact Hall|].
        apply Forall_singleton. rewrite Hc'. exact Hgt.
      * right. exists e, c.
        split; [apply elem_of_app; left; exact Hin|].
        split; [exact Hc|]. split; [reflexivity|].
        apply Forall_app. split; [exact Hall|].
        apply Forall_singleton. rewrite Hc'. exact Hgt.
  - destruct Hinv as [[-> Hall] | (e & c & Hin & Hc & -> & Hall)].
    + left. split; [reflexivity|]. apply Forall_app. split; [exact Hall|].
      apply Forall_singleton. rewrite Hc'. exact I.
    + right. exists e, c.
      split; [apply elem_of_app; left; exact Hin|].
      split; [exact Hc|]. split; [reflexivity|].
      apply Forall_app. split; [exact Hall|].
      apply Forall_singleton. rewrite Hc'. exact I.
Qed.

Lemma match_loop_best_so_far pdf_name items seen b :
  Forall (fun e => clean_text_for_matching db e.1
                   <> clean_text_for_matching db pdf_name) items ->
  best_so_far db sequence_ratio pdf_name seen b ->
  exists b',
    match_loop db sequence_ratio (clean_text_for_matching db pdf_name)
      (extract_meaningful_words db pdf_name 3) items b = Exhausted b'
    /\ best_so_far db sequence_ratio pdf_name (seen ++ items) b'.
Proof.
  intros Hne. revert seen b.
  induction Hne as [|[n k] items Hn _ IH]; intros seen b Hinv;
    cbn [match_loop].
  - exists b. rewrite app_nil_r. auto.
  - cbn [fst] in Hn.
    assert (str_eqb (clean_text_for_matching db pdf_name)
              (clean_text_for_matching db n) = false) as ->
      by (apply str_eqb_neq; congruence).
    destruct (IH (seen ++ [(n, k)]) _ (best_so_far_step pdf_name seen b n k Hinv))
      as (b' & Hloop & Hinv').
    exists b'. rewrite <- app_assoc in Hinv'. cbn [app] in Hinv'. auto.
Qed.

(** X1: When no entry is an exact match, the entry the matcher emits is
    one of the table whose candidate no entry's candidate exceeds in
    score, with the type and details of that candidate, and the score
    exceeds 0.5; the file is unmatched exactly when no candidate scores
    above 0.5.  (Scores are the exact values; which of several entries
    of equal score is emitted is not stated.) *)
Theorem best_candidate_selected pdf_name (name_to_number : list (pystr * pystr)) :
  Forall (fun e => clean_text_for_matching db e.1
                   <> clean_text_for_matching db pdf_name) name_to_number ->
  match match_pdf db sequence_ratio pdf_name name_to_number with
  | Some info =>
      exists c,
        (m_matched_name info, m_doc_number info) ∈ name_to_number
        /\ entry_candidate db sequence_ratio pdf_name
             (m_matched_name info, m_doc_number info) = Some c
        /\ m_match_type info = cand_type c
        /\ m_details info = cand_details c
        /\ (5 # 10 < cand_score c)%Q
        /\ Forall (fun e => scores_at_most (cand_score c)
                              (entry_candidate db sequence_ratio pdf_name e))
             name_to_number
  | None =>
      Forall (fun e => scores_at_most (5 # 10)
                         (entry_candidate db sequence_ratio pdf_name e))
        name_to_number
  end.
Proof.
  intros Hne. unfold match_pdf.
  destruct (match_loop_best_so_far pdf_name name_to_number [] best_init Hne)
    as (b & -> & Hinv).
  { left. split; [reflexivity | constructor]. }
  cbn [app] in Hinv.
  destruct Hinv as [[-> Hall] | ([n k] & c & Hin & Hc & -> & Hall)].
  - cbn [best_init best_match]. eapply Forall_impl; [exact Hall|].
    intros e. apply scores_relax. lra.
  - cbn [best_match best_doc_number best_match_type best_score
         best_match_details fst snd].
    assert (Hn : str_eqb n [] = false).
    { apply str_eqb_neq. intros ->.
      rewrite entry_candidate_empty_name in Hc. discriminate. }
    rewrite Hn. cbn [negb andb].
    destruct (Qgt_bool (cand_score c) (5 # 10)) eqn:Hgt.
    + apply Qgt_bool_true in Hgt. exists c.
      cbn [m_matched_name m_doc_number m_match_type m_details]. auto 10.
    + apply Qgt_bool_false in Hgt.
      eapply Forall_impl; [exact Hall|].
      intros e. apply scores_relax. exact Hgt.
Qed.

Lemma match_loop_upper clean_pdf_name pdf_words items b b' :
  match_loop db sequence_ratio clean_pdf_name pdf_words items b = Exhausted b' ->
  (best_score b <= best_score b')%Q
  /\ forall e c,
       e ∈ items ->
       cascade db sequence_ratio clean_pdf_name pdf_words
         (clean_text_for_matching db e.1) (extract_meaningful_words db e.1 3)
       = Some c ->
       (cand_score c <= best_score b')%Q.
Proof.
  revert b. induction items as [|[n k] items IH]; intros b; cbn [match_loop].
  - intros [= ->]. split; [lra|]. intros e c Hin. inversion Hin.
  - destruct (str_eqb _ _); [discriminate|]. intros Hloop.
    destruct (IH _ Hloop) as [Hle Hall].
    assert (Hstep : (best_score b
                     <= best_score
                          (update_best n k
                             (cascade db sequence_ratio clean_pdf_name pdf_words
                                (clean_text_for_matching db n)
                                (extract_meaningful_words db n 3)) b))%Q
                    /\ scores_at_most
                         (best_score
                            (update_best n k
                               (cascade db sequence_ratio clean_pdf_name pdf_words
                                  (clean_text_for_matching db n)
                                  (extract_meaningful_words db n 3)) b))
                         (cascade db sequence_ratio clean_pdf_name pdf_words
                            (clean_text_for_matching db n)
                            (extract_meaningful_words db n 3))).
    { unfold update_best.
      destruct (cascade _ _ _ _ _ _) as [c|]; cbn [scores_at_most];
        [|split; [lra|exact I]].
      destruct (Qgt_bool (cand_score c) (best_score b)) eqn:Hgt;
        cbn [best_score].
      - apply Qgt_bool_true in Hgt. split; lra.
      - apply Qgt_bool_false in Hgt. split; lra. }
    destruct Hstep as [Hb Hc]. split; [eapply Qle_trans; eassumption|].
    intros e c Hin Hcas. apply elem_of_cons in Hin as [-> | Hin]; [|eauto].
    cbn [fst] in Hcas. rewrite Hcas in Hc, Hle. unfold scores_at_most in Hc.
    eapply Qle_trans; eassumption.
Qed.

(** X2: Appending to the table an entry that is not an exact match and
    whose candidate, if it has one, scores strictly less than the
    candidate of an entry already there does not change the match of a
    file. *)
Theorem inferior_entry_ignored pdf_name (name_to_number : list (pystr * pystr))
    (entry : pystr * pystr) :
  clean_text_for_matching db entry.1 <> clean_text_for_matching db pdf_name ->
  match entry_candidate db sequence_ratio pdf_name entry with
  | None => True
  | Some c =>
      exists e0 c0,
        e0 ∈ name_to_number
        /\ entry_candidate db sequence_ratio pdf_name e0 = Some c0
        /\ (cand_score c < cand_score c0)%Q
  end ->
  match_pdf db sequence_ratio pdf_name (name_to_number ++ [entry])
  = match_pdf db sequence_ratio pdf_name name_to_number.
Proof.
  intros Hne Hinf. unfold match_pdf. rewrite match_loop_app.
  destruct (match_loop _ _ _ _ name_to_number best_init) as [n k|b] eqn:Hloop;
    [reflexivity|].
  destruct entry as [n k]. cbn [fst] in Hne. cbn [match_loop].
  assert (str_eqb (clean_text_for_matching db pdf_name)
            (clean_text_for_matching db n) = false) as ->
    by (apply str_eqb_neq; congruence).
  destruct (match_loop_upper _ _ _ _ _ Hloop) as [_ Hall].
  unfold entry_candidate in Hinf. cbn [fst] in Hinf.
  unfold update_best.
  destruct (cascade _ _ _ _ _ _) as [c|]; [|reflexivity].
  destruct Hinf as (e0 & c0 & Hin & Hc0 & Hlt).
  assert (Qgt_bool (cand_score c) (best_score b) = false) as ->; [|reflexivity].
  apply Qgt_bool_false. specialize (Hall e0 c0 Hin Hc0). lra.
Qed.

End MatcherChoice.

(** ** The scores of the strategies *)

Lemma Qnat_div_le_1 (a b : nat) : (a <= b)%nat -> (Qnat a / Qnat b <= 1)%Q.
Proof.
  intros Hab. destruct b as [|b].
  - assert (a = 0%nat) as -> by lia. vm_compute. discriminate.
  - apply Qle_shift_div_r; [apply Qnat_pos; lia|].
    rewrite Qmult_1_l. unfold Qnat, Qle; simpl. lia.
Qed.

Lemma count_fuzzy_matches_le db sequence_ratio pdf_words doc_words :
  (count_fuzzy_matches db sequence_ratio pdf_words doc_words 0
   <= length pdf_words)%nat.
Proof.
  rewrite count_fuzzy_matches_acc. simpl.
  unfold Spec.matched_occurrences, Spec.matched_tokens.
  apply List.filter_length_le.
Qed.

(** X3: Every candidate the cascade proposes has a score in the range of its
    strategy: above 0.7 and at most 1 for word overlap, in (0.48, 0.8]
    for a substring, (0.45, 0.75] for a reverse substring, (0.42, 0.7]
    for fuzzy words, and above 0.51 for high similarity; none is an
    exact match. *)
Theorem cascade_score_in_range db sequence_ratio
    (clean_pdf_name : pystr) (pdf_words : list pystr)
    (clean_doc_name : pystr) (doc_words : list pystr) (c : candidate) :
  cascade db sequence_ratio clean_pdf_name pdf_words clean_doc_name doc_words
    = Some c ->
  score_in_range c.
Proof.
  unfold cascade, score_in_range.
  destruct (word_overlap_strategy pdf_words doc_words) as [c'|] eqn:Hwo.
  { intros [= <-].
    destruct (word_overlap_strategy_some _ _ _ Hwo) as (-> & Hs & Hgt & _).
    split; [exact Hgt|]. rewrite Hs. apply word_overlap_score_range. }
  destruct (8 <? length clean_doc_name)%nat.
  - unfold substring_strategy.
    pose proof (Qnat_div_le_1 (length clean_doc_name)
                  (Nat.max (length clean_pdf_name) (length clean_doc_name))
                  (Nat.le_max_r _ _)) as Hdoc.
    pose proof (Qnat_div_le_1 (length clean_pdf_name)
                  (Nat.max (length clean_pdf_name) (length clean_doc_name))
                  (Nat.le_max_l _ _)) as Hpdf.
    destruct (str_contains clean_doc_name clean_pdf_name).
    + destruct (Qgt_bool _ _) eqn:Hgt; [|discriminate].
      apply Qgt_bool_true in Hgt. intros [= <-]. simpl. split; lra.
    + destruct (_ && _); [|discriminate].
      destruct (Qgt_bool _ _) eqn:Hgt; [|discriminate].
      apply Qgt_bool_true in Hgt. intros [= <-]. simpl. split; lra.
  - destruct (_ && _).
    + unfold fuzzy_words_strategy.
      destruct (_ && _) eqn:Hcond; [|discriminate].
      apply andb_true_iff in Hcond as [Hgt _]. apply Qgt_bool_true in Hgt.
      intros [= <-]. simpl.
      assert (Hle : (Qnat (count_fuzzy_matches db sequence_ratio pdf_words
                             doc_words 0)
                     / Qnat (Nat.max (length pdf_words) (length doc_words))
                     <= 1)%Q).
      { apply Qnat_div_le_1.
        pose proof (count_fuzzy_matches_le db sequence_ratio pdf_words doc_words).
        lia. }
      split; lra.
    + unfold high_similarity_strategy.
      destruct (_ && _) eqn:Hcond; [|discriminate].
      apply andb_true_iff in Hcond as [Hcond _].
      apply andb_true_iff in Hcond as [Hgt _]. apply Qgt_bool_true in Hgt.
      intros [= <-]. simpl. lra.
Qed.

(** ** The batch the matcher hands to the executor *)

Section FindMatches.
Variable db : unicode_db.
Variable sequence_ratio : pystr -> pystr -> Q.

Lemma find_matches_sublist name_to_number pdf_files :
  (find_matches db sequence_ratio name_to_number pdf_files).*1
    `sublist_of` pdf_files.
Proof.
  induction pdf_files as [|f rest IH]; simpl; [constructor|].
  destruct (match_pdf db sequence_ratio (path_stem f) name_to_number);
    [rewrite fmap_cons; apply sublist_skip | apply sublist_cons]; exact IH.
Qed.

(** X4: The batch lists the matched files in the order of the listing, each
    with the match of its stem and nothing else; a listing without
    repetition gives a batch without repetition. *)
Theorem find_matches_batch name_to_number pdf_files :
  (find_matches db sequence_ratio name_to_number pdf_files).*1
    `sublist_of` pdf_files
  /\ (forall pdf_file info,
        (pdf_file, info) ∈ find_matches db sequence_ratio name_to_number pdf_files
        <-> pdf_file ∈ pdf_files
            /\ match_pdf db sequence_ratio (path_stem pdf_file) name_to_number
               = Some info)
  /\ (NoDup pdf_files ->
      NoDup (find_matches db sequence_ratio name_to_number pdf_files).*1).
Proof.
  split; [apply find_matches_sublist|]. split.
  - intros pdf_file info.
    induction pdf_files as [|f rest IH]; simpl.
    + split; [intros H; inversion H | intros [H _]; inversion H].
    + destruct (match_pdf db sequence_ratio (path_stem f) name_to_number)
        as [info'|] eqn:Hm; rewrite ?elem_of_cons, IH; split.
      * intros [[= -> ->] | [Hin Hres]]; auto.
      * intros [[-> | Hin] Hres]; [left; congruence | auto].
      * intros [Hin Hres]; auto.
      * intros [[-> | Hin] Hres]; [congruence | auto].
  - intros Hnd. eapply sublist_NoDup; [exact Hnd | apply find_matches_sublist].
Qed.

End FindMatches.

(** ** More on the word-overlap score *)

Lemma word_overlap_score_sets (pdf_words doc_words : list pystr) :
  calculate_word_overlap_score pdf_words doc_words
  = match pdf_words, doc_words with
    | [], _ | _, [] => 0%Q
    | _, _ =>
        Qmin (Qnat (size (word_set pdf_words ∩ word_set doc_words))
              / Qnat (size (word_set pdf_words ∪ word_set doc_words))
              + Qmin (Qnat (size (word_set pdf_words ∩ word_set doc_words))
                      * (1 # 10)) (3 # 10)) 1
    end.
Proof.
  destruct pdf_words as [|p ps]; [reflexivity|].
  destruct doc_words as [|d ds]; [reflexivity|].
  apply word_overlap_score_nonempty; discriminate.
Qed.

(** X5: The word-overlap score is symmetric and depends only on the two sets
    of words, not on order or repetition; it is 1 for equal non-empty
    sets and 0 for disjoint ones. *)
Theorem word_overlap_score_symmetric (pdf_words doc_words : list pystr) :
  calculate_word_overlap_score pdf_words doc_words
  = calculate_word_overlap_score doc_words pdf_words
  /\ (forall pdf_words' doc_words',
        word_set pdf_words' = word_set pdf_words ->
        word_set doc_words' = word_set doc_words ->
        calculate_word_overlap_score pdf_words' doc_words'
        = calculate_word_overlap_score pdf_words doc_words)
  /\ (pdf_words <> [] -> word_set pdf_words = word_set doc_words ->
      (calculate_word_overlap_score pdf_words doc_words == 1)%Q)
  /\ (word_set pdf_words ∩ word_set doc_words = ∅ ->
      (calculate_word_overlap_score pdf_words doc_words == 0)%Q).
Proof.
  split; [|split; [|split]].
  - rewrite !word_overlap_score_sets.
    rewrite (intersection_comm_L (word_set pdf_words)),
            (union_comm_L (word_set pdf_words)).
    destruct pdf_words, doc_words; reflexivity.
  - intros pdf_words' doc_words' Hp Hd.
    rewrite !word_overlap_score_sets, Hp, Hd.
    assert (Hpe : pdf_words' = [] <-> pdf_words = [])
      by (rewrite <- !word_set_empty, Hp; tauto).
    assert (Hde : doc_words' = [] <-> doc_words = [])
      by (rewrite <- !word_set_empty, Hd; tauto).
    destruct pdf_words' as [|p' ps'], pdf_words as [|p ps];
      try reflexivity;
      try (exfalso; destruct Hpe as [H1 H2];
           first [discriminate (H1 eq_refl) | discriminate (H2 eq_refl)]).
    destruct doc_words' as [|d' ds'], doc_words as [|d ds];
      try reflexivity;
      exfalso; destruct Hde as [H1 H2];
      first [discriminate (H1 eq_refl) | discriminate (H2 eq_refl)].
  - intros Hne Heq.
    assert (Hd : doc_words <> []).
    { rewrite <- word_set_empty, <- Heq, word_set_empty. exact Hne. }
    rewrite word_overlap_score_nonempty by assumption.
    rewrite <- Heq.
    replace (word_set pdf_words ∩ word_set pdf_words) with (word_set pdf_words)
      by (symmetry; apply (idemp_L (∩))).
    replace (word_set pdf_words ∪ word_set pdf_words) with (word_set pdf_words)
      by (symmetry; apply (idemp_L (∪))).
    assert (Hpos : (0 < size (word_set pdf_words))%nat).
    { assert (size (word_set pdf_words) <> 0%nat); [|lia].
      rewrite size_empty_iff. intros He. apply Hne, word_set_empty.
      apply leibniz_equiv, He. }
    set (n := size (word_set pdf_words)) in *.
    assert (Hone : (Qnat n / Qnat n == 1)%Q).
    { apply Qmult_inv_r. intros H0. pose proof (Qnat_pos n Hpos). lra. }
    assert (Hb : (0 <= Qmin (Qnat n * (1 # 10)) (3 # 10))%Q).
    { apply Q.min_glb; [|discriminate].
      pose proof (Qnat_nonneg n). nra. }
    rewrite Hone. apply Q.min_r. lra.
  - intros Hdisj.
    rewrite word_overlap_score_sets.
    destruct pdf_words as [|p ps]; [reflexivity|].
    destruct doc_words as [|d ds]; [reflexivity|].
    rewrite Hdisj, size_empty. reflexivity.
Qed.

(** ** The shape of normalized ASCII text and of its tokens *)

Section AsciiShape.
Variable db : unicode_db.

Lemma single_spaced_head r : single_spaced db true (SPACE :: r) = false.
Proof. reflexivity. Qed.

Lemma single_spaced_no_double b r1 r2 :
  single_spaced db b (r1 ++ SPACE :: SPACE :: r2) = false.
Proof.
  revert b. induction r1 as [|c r1 IH]; intros b; simpl.
  - apply andb_false_r.
  - destruct (N.eqb c SPACE); rewrite IH; apply andb_false_r.
Qed.

Lemma ends_solid_snoc r : ends_solid (r ++ [SPACE]) = false.
Proof. unfold ends_solid. rewrite rev_app_distr. reflexivity. Qed.

Lemma sub_spaces_from_length b s :
  (length (sub_spaces_from db b s) <= length s)%nat.
Proof.
  revert b. induction s as [|c s IH]; intros b; simpl; [lia|].
  pose proof (IH true). pose proof (IH false).
  destruct (is_space db c); [destruct b|]; simpl; lia.
Qed.

Lemma lstrip_length s : (length (lstrip db s) <= length s)%nat.
Proof.
  induction s as [|c s IH]; simpl; [lia|].
  destruct (is_space db c); simpl; lia.
Qed.

Lemma clean_text_cased_length s :
  (length (clean_text_cased db s) <= length s)%nat.
Proof.
  unfold clean_text_cased, strip, rstrip, sub_spaces, sub_nonword, replace_char.
  rewrite length_rev.
  etransitivity; [apply lstrip_length|]. rewrite length_rev.
  etransitivity; [apply lstrip_length|].
  etransitivity; [apply sub_spaces_from_length|].
  rewrite !length_map. lia.
Qed.

Lemma solid_lower_char c :
  is_ascii c = true -> solid db c = true -> ascii_lower c = c ->
  ascii_islower c || ascii_isdigit c = true.
Proof.
  intros Hc Hs Hl.
  pose proof (ascii_cases
    (fun c => implb (solid db c && N.eqb (ascii_lower c) c)
                (ascii_islower c || ascii_isdigit c))
    eq_refl c Hc) as H.
  simpl in H. rewrite Hs in H. apply N.eqb_eq in Hl. rewrite Hl in H.
  exact H.
Qed.

(** X6: The normalized form of an ASCII string consists of lowercase
    letters, digits and single spaces, does not begin or end with a
    space, and is no longer than the string. *)
Theorem normalized_ascii_shape (s : pystr) :
  forallb is_ascii s = true ->
  let r := clean_text_for_matching db s in
  Forall (fun c => c = SPACE \/ ascii_islower c || ascii_isdigit c = true) r
  /\ (forall r', r <> SPACE :: r')
  /\ (forall r', r <> r' ++ [SPACE])
  /\ (forall r1 r2, r <> r1 ++ SPACE :: SPACE :: r2)
  /\ (length r <= length s)%nat.
Proof.
  intros Ha r.
  pose proof (clean_text_cased_ascii db s Ha) as Ht.
  pose proof (clean_text_cased_normal_form db s) as Hnf.
  pose proof (clean_text_cased_length s) as Hlen.
  assert (Hr : r = List.map ascii_lower (clean_text_cased db s))
    by (unfold r, clean_text_for_matching; apply str_lower_ascii, Ht).
  destruct (ascii_lower_text db _ Ht) as [Har Hidem].
  destruct (ascii_lower_normal_form db _ Ht Hnf) as [Hss Hes].
  rewrite <- Hr in Har, Hidem, Hss, Hes.
  split; [|split; [|split; [|split]]].
  - apply Forall_forall. intros c Hin.
    destruct (single_spaced_chars db _ _ _ Hss Hin) as [-> | Hsolid]; [auto|].
    right. apply solid_lower_char; [| exact Hsolid |].
    + rewrite forallb_forall in Har. apply Har, list_elem_of_In, Hin.
    + apply list_elem_of_In in Hin. rewrite Hr in Hin.
      apply in_map_iff in Hin as (c0 & <- & Hc0).
      assert (Hc0a : is_ascii c0 = true).
      { rewrite forallb_forall in Ht. auto. }
      apply (ascii_lower_char db c0 Hc0a).
  - intros r' Heq. rewrite Heq in Hss. discriminate.
  - intros r' Heq. rewrite Heq, ends_solid_snoc in Hes. discriminate.
  - intros r1 r2 Heq. rewrite Heq, single_spaced_no_double in Hss. discriminate.
  - rewrite Hr, length_map. exact Hlen.
Qed.

Lemma findall_words_from_chars cur s w :
  w ∈ findall_words_from db cur s ->
  w <> []
  /\ forall c, c ∈ w -> c ∈ cur \/ (c ∈ s /\ is_word db c = true).
Proof.
  revert cur. induction s as [|c0 s IH]; intros cur; simpl.
  - destruct cur as [|x cur]; [intros H; inversion H|].
    intros Hin. apply list_elem_of_singleton in Hin as ->. split.
    + intros Hnil. apply (f_equal (@length N)) in Hnil.
      rewrite length_rev in Hnil. discriminate.
    + intros c Hc. left. apply list_elem_of_In, in_rev, list_elem_of_In, Hc.
  - destruct (is_word db c0) eqn:Hw.
    + intros Hin. destruct (IH _ Hin) as [Hne Hch]. split; [exact Hne|].
      intros c Hc. destruct (Hch c Hc) as [Hcur | [Hs Hcw]].
      * apply elem_of_cons in Hcur as [-> | Hcur]; [|auto].
        right. split; [left | exact Hw].
      * right. split; [right; exact Hs | exact Hcw].
    + assert (Hrest : w ∈ findall_words_from db [] s ->
                      w <> []
                      /\ forall c, c ∈ w ->
                           c ∈ cur \/ (c ∈ c0 :: s /\ is_word db c = true)).
      { intros Hin. destruct (IH _ Hin) as [Hne Hch]. split; [exact Hne|].
        intros c Hc. destruct (Hch c Hc) as [Hcur | [Hs Hcw]];
          [inversion Hcur|]. right. split; [right; exact Hs | exact Hcw]. }
      destruct cur as [|x cur]; [exact Hrest|].
      intros Hin. apply elem_of_cons in Hin as [-> | Hin]; [|auto].
      split.
      * intros Hnil. apply (f_equal (@length N)) in Hnil.
        rewrite length_rev in Hnil. discriminate.
      * intros c Hc. left. apply list_elem_of_In, in_rev, list_elem_of_In, Hc.
Qed.

(** X7: Every token extracted from an ASCII string has at least
    [min_length] characters, is not a stop word, consists of lowercase
    letters and digits only, and contains a letter. *)
Theorem tokens_ascii_shape (text : pystr) (min_length : nat) (word : pystr) :
  forallb is_ascii text = true ->
  word ∈ extract_meaningful_words db text min_length ->
  (min_length <= length word)%nat
  /\ str_in word stop_words = false
  /\ Forall (fun c => ascii_islower c || ascii_isdigit c = true) word
  /\ exists c, c ∈ word /\ ascii_islower c = true.
Proof.
  intros Ha Hin. unfold extract_meaningful_words in Hin.
  apply list_elem_of_In, List.filter_In in Hin as [Hin Hcond].
  apply andb_true_iff in Hcond as [Hcond Hnd].
  apply andb_true_iff in Hcond as [Hlen Hstop].
  apply Nat.leb_le in Hlen. apply negb_true_iff in Hstop, Hnd.
  destruct (normalized_ascii_shape text Ha) as (Hchars & _).
  assert (Hlow : str_lower db (clean_text_for_matching db text)
                 = clean_text_for_matching db text).
  { pose proof (clean_text_cased_ascii db text Ha) as Ht.
    destruct (ascii_lower_text db _ Ht) as [Har Hidem].
    unfold clean_text_for_matching.
    rewrite (str_lower_ascii db _ Ht), (str_lower_ascii db _ Har). exact Hidem. }
  rewrite Hlow in Hin. apply list_elem_of_In in Hin.
  destruct (findall_words_from_chars [] _ _ Hin) as [Hne Hch].
  assert (Hall : Forall (fun c => ascii_islower c || ascii_isdigit c = true) word).
  { apply Forall_forall. intros c Hc.
    destruct (Hch c Hc) as [Hnil | [Hr Hw]]; [inversion Hnil|].
    rewrite Forall_forall in Hchars.
    destruct (Hchars c Hr) as [-> | Hok]; [discriminate Hw | exact Hok]. }
  repeat split; auto.
  destruct word as [|c0 word]; [congruence|].
  unfold str_isdigit in Hnd.
  assert (Hex : exists c, c ∈ c0 :: word /\ is_digit db c = false).
  { clear -Hnd. induction (c0 :: word) as [|x l IH]; simpl in Hnd;
      [discriminate|].
    apply andb_false_iff in Hnd as [Hx | Hl].
    - exists x. split; [left | exact Hx].
    - destruct (IH Hl) as (c & Hc & Hd). exists c. split; [right|]; auto. }
  destruct Hex as (c & Hc & Hd). exists c. split; [exact Hc|].
  rewrite Forall_forall in Hall. specialize (Hall c Hc).
  unfold is_digit in Hd.
  destruct (ascii_islower c) eqn:Hl; [reflexivity|]. simpl in Hall.
  assert (Hasc : is_ascii c = true).
  { unfold ascii_isdigit in Hall. unfold is_ascii.
    apply andb_true_iff in Hall as [_ H]. apply N.leb_le in H.
    apply N.ltb_lt. lia. }
  rewrite Hasc in Hd. congruence.
Qed.

End AsciiShape.

(** ** The reference table *)

Section PyDictFacts.
Context {K V : Type} `{EqDecision K}.
Implicit Types (d : list (K * V)).

Lemma pydict_get_set_eq k v d : pydict_get k (pydict_set k v d) = Some v.
Proof.
  induction d as [|[k' v'] d IH]; cbn [pydict_set pydict_get].
  - rewrite decide_True; auto.
  - destruct (decide (k' = k)); cbn [pydict_get].
    + rewrite decide_True; auto.
    + rewrite decide_False; auto.
Qed.

Lemma pydict_get_set_ne k k' v d :
  k <> k' -> pydict_get k' (pydict_set k v d) = pydict_get k' d.
Proof.
  intros Hne. induction d as [|[k0 v0] d IH]; cbn [pydict_set pydict_get].
  - rewrite decide_False; auto.
  - destruct (decide (k0 = k)) as [->|]; cbn [pydict_get].
    + rewrite !decide_False; auto.
    + destruct (decide (k0 = k')); auto.
Qed.

Lemma pydict_set_keys k v d k' :
  k' ∈ (pydict_set k v d).*1 <-> k' = k \/ k' ∈ d.*1.
Proof.
  induction d as [|[k0 v0] d IH]; cbn [pydict_set].
  - rewrite fmap_cons, !fmap_nil. cbn [fst].
    rewrite list_elem_of_singleton. split; [auto|].
    intros [?|Hin]; [auto | inversion Hin].
  - destruct (decide (k0 = k)) as [->|Hne]; rewrite !fmap_cons; cbn [fst].
    + rewrite !elem_of_cons. tauto.
    + rewrite !elem_of_cons, IH. tauto.
Qed.

Lemma pydict_set_NoDup k v d : NoDup d.*1 -> NoDup (pydict_set k v d).*1.
Proof.
  induction d as [|[k0 v0] d IH]; cbn [pydict_set].
  - intros _. apply NoDup_singleton.
  - rewrite fmap_cons, NoDup_cons. cbn [fst]. intros [Hk0 Hd].
    destruct (decide (k0 = k)) as [->|Hne]; rewrite fmap_cons; cbn [fst].
    + apply NoDup_cons; auto.
    + apply NoDup_cons. split; [|auto].
      rewrite pydict_set_keys. intros [?|?]; [congruence | auto].
Qed.

Lemma pydict_set_length k v d :
  (length d <= length (pydict_set k v d) <= S (length d))%nat.
Proof.
  induction d as [|[k0 v0] d IH]; cbn [pydict_set length]; [lia|].
  destruct (decide (k0 = k)); cbn [length]; lia.
Qed.

Lemma pydict_set_nonempty k v d : pydict_set k v d <> [].
Proof.
  destruct d as [|[k0 v0] d]; cbn [pydict_set]; [discriminate|].
  destruct (decide (k0 = k)); discriminate.
Qed.


Lemma pydict_get_none k d : k ∉ d.*1 -> pydict_get k d = None.
Proof.
  induction d as [|[k0 v0] d IH]; cbn [pydict_get]; [reflexivity|].
  rewrite fmap_cons, not_elem_of_cons. cbn [fst]. intros [Hne Hd].
  rewrite decide_False; auto.
Qed.



End PyDictFacts.

Lemma count_valid_pairs_acc rows n :
  count_valid_pairs rows n = (n + count_valid_pairs rows 0)%nat.
Proof.
  revert n. induction rows as [|[col_h col_u] rows IH]; intros n;
    cbn [count_valid_pairs]; [lia|].
  rewrite (IH (match col_h, col_u with Some _, Some _ => S n | _, _ => n end)).
  rewrite (IH (match col_h, col_u with Some _, Some _ => 1%nat | _, _ => 0%nat end)).
  destruct col_h, col_u; lia.
Qed.

Lemma count_valid_pairs_le rows : (count_valid_pairs rows 0 <= length rows)%nat.
Proof.
  induction rows as [|[col_h col_u] rows IH]; cbn [count_valid_pairs length];
    [lia|].
  rewrite count_valid_pairs_acc. destruct col_h, col_u; lia.
Qed.

Section ReferenceTableFacts.
Variable db : unicode_db.
Variable int_of_float_text : pystr -> option pystr.

Lemma read_rows_app rows1 rows2 name_to_number valid_pairs :
  read_rows db int_of_float_text (rows1 ++ rows2) name_to_number valid_pairs
  = read_rows db int_of_float_text rows2
      (read_rows db int_of_float_text rows1 name_to_number valid_pairs).1
      (read_rows db int_of_float_text rows1 name_to_number valid_pairs).2.
Proof.
  revert name_to_number valid_pairs.
  induction rows1 as [|[[doc_name|] [doc_number|]] rows1 IH];
    intros name_to_number valid_pairs; cbn [app read_rows]; auto.
Qed.

Lemma read_rows_invariants rows name_to_number valid_pairs :
  let r := read_rows db int_of_float_text rows name_to_number valid_pairs in
  r.2 = (valid_pairs + count_valid_pairs rows 0)%nat
  /\ (NoDup name_to_number.*1 -> NoDup r.1.*1)
  /\ (length name_to_number <= length r.1
      <= length name_to_number + count_valid_pairs rows 0)%nat
  /\ (count_valid_pairs rows 0 = 0%nat -> r.1 = name_to_number)
  /\ (0 < count_valid_pairs rows 0 -> r.1 <> [])%nat.
Proof.
  revert name_to_number valid_pairs.
  induction rows as [|[[doc_name|] [doc_number|]] rows IH];
    intros name_to_number valid_pairs; cbn [read_rows count_valid_pairs];
    try (cbn zeta; cbn [fst snd]; repeat split; auto; lia);
    try apply IH.
  rewrite (count_valid_pairs_acc rows 1).
  set (d := pydict_set _ _ name_to_number).
  destruct (IH d (S valid_pairs)) as (H1 & H2 & H3 & H4 & H5).
  pose proof (pydict_set_length (strip db doc_name)
                (clean_document_number db int_of_float_text doc_number)
                name_to_number) as Hlen.
  fold d in Hlen. cbn zeta.
  split; [lia|]. split; [|split; [lia|split; [lia|]]].
  - intros Hnd. apply H2. apply pydict_set_NoDup, Hnd.
  - intros _.
    destruct (Nat.eq_dec (count_valid_pairs rows 0) 0) as [H0|H0].
    + rewrite (H4 H0). apply pydict_set_nonempty.
    + apply H5. lia.
Qed.

Lemma read_rows_get_absent rows name_to_number valid_pairs key :
  (forall doc_name doc_number,
     (Some doc_name, Some doc_number) ∈ rows -> strip db doc_name <> key) ->
  pydict_get key
    (read_rows db int_of_float_text rows name_to_number valid_pairs).1
  = pydict_get key name_to_number.
Proof.
  revert name_to_number valid_pairs.
  induction rows as [|[[doc_name|] [doc_number|]] rows IH];
    intros name_to_number valid_pairs Hrows; cbn [read_rows]; auto;
    try (apply IH; intros dn dk Hin; apply (Hrows dn dk); right; exact Hin).
  rewrite IH by (intros dn dk Hin; apply (Hrows dn dk); right; exact Hin).
  apply pydict_get_set_ne. apply (Hrows doc_name doc_number). left.
Qed.

(** X8: The table read from the sheet: [valid_pairs] is the number of rows
    with both cells filled, the number [preview_excel_data] reports; the
    table has one entry per distinct stripped name, so at most
    [valid_pairs] entries, and it is empty exactly when [valid_pairs]
    is 0. *)
Theorem reference_table_counts (rows : list (option pystr * option pystr)) :
  let name_to_number := (read_name_to_number db int_of_float_text rows).1 in
  let valid_pairs := (read_name_to_number db int_of_float_text rows).2 in
  valid_pairs = preview_excel_data rows
  /\ NoDup name_to_number.*1
  /\ (length name_to_number <= valid_pairs <= length rows)%nat
  /\ (name_to_number = [] <-> valid_pairs = 0%nat)
  /\ (forall key,
        key ∈ name_to_number.*1
        <-> exists doc_name doc_number,
              (Some doc_name, Some doc_number) ∈ rows
              /\ key = strip db doc_name).
Proof.
  cbn zeta. unfold read_name_to_number, preview_excel_data.
  destruct (read_rows_invariants rows [] 0) as (H1 & H2 & H3 & H4 & H5).
  cbn zeta in H1, H2, H3, H4, H5. cbn [length] in H3.
  pose proof (count_valid_pairs_le rows) as Hle.
  split; [lia|]. split; [apply H2, NoDup_nil_2|]. split; [lia|]. split.
  - split.
    + intros Hnil.
      destruct (Nat.eq_dec (count_valid_pairs rows 0) 0) as [H0|H0]; [lia|].
      exfalso. apply H5; [lia | exact Hnil].
    + intros H0. apply H4. lia.
  - intros key. clear.
    assert (Hgen : forall acc n,
       key ∈ (read_rows db int_of_float_text rows acc n).1.*1
       <-> key ∈ acc.*1
           \/ exists doc_name doc_number,
                (Some doc_name, Some doc_number) ∈ rows
                /\ key = strip db doc_name).
    { induction rows as [|[[doc_name|] [doc_number|]] rows IH]; intros acc n;
        cbn [read_rows].
      - cbn [fst]. split; [auto|]. intros [?|(? & ? & Hin & _)]; [auto|].
        inversion Hin.
      - rewrite IH, pydict_set_keys. split.
        + intros [[->|?]|(dn & dk & Hin & ->)]; [right|left|right]; auto.
          * exists doc_name, doc_number. split; [left | reflexivity].
          * exists dn, dk. split; [right; exact Hin | reflexivity].
        + intros [?|(dn & dk & Hin & ->)]; [auto|].
          apply elem_of_cons in Hin as [[= -> ->]|Hin]; [auto|].
          right. exists dn, dk. auto.
      - rewrite IH. split.
        + intros [?|(dn & dk & Hin & ->)]; [auto|].
          right. exists dn, dk. split; [right; exact Hin | reflexivity].
        + intros [?|(dn & dk & Hin & ->)]; [auto|].
          apply elem_of_cons in Hin as [[=]|Hin].
          right. exists dn, dk. auto.
      - rewrite IH. split.
        + intros [?|(dn & dk & Hin & ->)]; [auto|].
          right. exists dn, dk. split; [right; exact Hin | reflexivity].
        + intros [?|(dn & dk & Hin & ->)]; [auto|].
          apply elem_of_cons in Hin as [[=]|Hin].
          right. exists dn, dk. auto.
      - rewrite IH. split.
        + intros [?|(dn & dk & Hin & ->)]; [auto|].
          right. exists dn, dk. split; [right; exact Hin | reflexivity].
        + intros [?|(dn & dk & Hin & ->)]; [auto|].
          apply elem_of_cons in Hin as [[=]|Hin].
          right. exists dn, dk. auto. }
    rewrite Hgen. split; [|auto].
    intros [Hin|?]; [inversion Hin | auto].
Qed.

(** X9: Of the rows whose names are equal after stripping, the last one
    gives the document number. *)
Theorem reference_table_last_row_wins
    (pre post : list (option pystr * option pystr)) (doc_name doc_number : pystr) :
  (forall other_name other_number,
     (Some other_name, Some other_number) ∈ post ->
     strip db other_name <> strip db doc_name) ->
  pydict_get (strip db doc_name)
    (read_name_to_number db int_of_float_text
       (pre ++ (Some doc_name, Some doc_number) :: post)).1
  = Some (clean_document_number db int_of_float_text doc_number).
Proof.
  intros Hpost. unfold read_name_to_number.
  rewrite read_rows_app. cbn [read_rows].
  rewrite read_rows_get_absent by exact Hpost.
  apply pydict_get_set_eq.
Qed.

End ReferenceTableFacts.

Lemma reference_table_last_row_wins_witness :
  (forall other_name other_number,
     (Some other_name, Some other_number) ∈ [(Some (py "B"), Some (py "3"))] ->
     strip db_rows other_name <> strip db_rows (py "A "))
  /\ pydict_get (py "A")
       (read_name_to_number db_rows (fun _ => None)
          [(Some (py " A"), Some (py "1")); (Some (py "A "), Some (py "2"));
           (Some (py "B"), Some (py "3"))]).1
     = Some (py "2").
Proof.
  assert (H : forall other_name other_number,
     (Some other_name, Some other_number) ∈ [(Some (py "B"), Some (py "3"))] ->
     strip db_rows other_name <> strip db_rows (py "A ")).
  { intros other_name other_number Hin.
    apply list_elem_of_singleton in Hin. injection Hin as -> ->.
    vm_compute. discriminate. }
  split; [exact H|].
  exact (reference_table_last_row_wins db_rows (fun _ => None)
           [(Some (py " A"), Some (py "1"))] [(Some (py "B"), Some (py "3"))]
           (py "A ") (py "2") H).
Defined.

(** ** Listing the PDF files *)

Section SortedFacts.
Context {A : Type} (leb : A -> A -> bool).
Hypothesis leb_total : forall a b, leb a b = false -> leb b a = true.





End SortedFacts.




Section ListingFacts.
Variable sep : N.






End ListingFacts.

(** ** The Word-to-PDF converter *)

Lemma is_prefix_iff a b : is_prefix a b = true <-> exists c, b = a ++ c.
Proof.
  revert b. induction a as [|x a IH]; intros b; cbn [is_prefix].
  - split; [intros _; exists b; reflexivity | auto].
  - destruct b as [|y b].
    + split; [discriminate | intros (c & Hc); discriminate].
    + rewrite andb_true_iff, N.eqb_eq, IH. split.
      * intros (-> & c & ->). exists c. reflexivity.
      * intros (c & Hc). injection Hc as -> ->. eauto.
Qed.

Lemma str_endswith_iff suffix s :
  str_endswith suffix s = true <-> exists r, s = r ++ suffix.
Proof.
  unfold str_endswith. rewrite is_prefix_iff. split.
  - intros (c & Hc). exists (rev c).
    rewrite <- (rev_involutive s), Hc, rev_app_distr, rev_involutive.
    reflexivity.
  - intros (r & ->). exists (rev r). apply rev_app_distr.
Qed.

Lemma rfind_dot_app a b :
  rfind_dot (a ++ b)
  = match rfind_dot b with
    | Some i => Some (length a + i)%nat
    | None => rfind_dot a
    end.
Proof.
  induction a as [|x a IH]; cbn [app rfind_dot length].
  - destruct (rfind_dot b); reflexivity.
  - rewrite IH. destruct (rfind_dot b); reflexivity.
Qed.

Lemma ascii_lower_dot c : ascii_lower c = DOT <-> c = DOT.
Proof.
  unfold ascii_lower, ascii_isupper, DOT.
  destruct ((65 <=? c)%N && (c <=? 90)%N) eqn:Hu; [|tauto].
  apply andb_true_iff in Hu as [H1 H2].
  apply N.leb_le in H1, H2. lia.
Qed.

(** The extension of a selected name begins with its only dot. *)
Lemma docx_extension_dot ext :
  List.map ascii_lower ext = py ".docx" -> rfind_dot ext = Some 0%nat.
Proof.
  intros Hext.
  destruct ext as [|c0 [|c1 [|c2 [|c3 [|c4 [|c5 ext]]]]]]; try discriminate.
  change (py ".docx") with [46; 100; 111; 99; 120]%N in Hext.
  cbn [List.map] in Hext.
  injection Hext as H0 H1 H2 H3 H4.
  apply (proj1 (ascii_lower_dot c0)) in H0. subst c0.
  assert (Hno : forall c n, ascii_lower c = n -> n <> DOT -> N.eqb c DOT = false).
  { intros c n Hc Hn. apply N.eqb_neq. intros Hd.
    apply (proj2 (ascii_lower_dot c)) in Hd. congruence. }
  cbn [rfind_dot].
  rewrite (Hno _ _ H1), (Hno _ _ H2), (Hno _ _ H3), (Hno _ _ H4);
    [reflexivity | discriminate ..].
Qed.

Section Converter.
Variable db : unicode_db.

Lemma docx_selected filename :
  forallb is_ascii filename = true ->
  str_endswith (py ".docx") (str_lower db filename) = true
  <-> exists root ext,
        filename = root ++ ext /\ List.map ascii_lower ext = py ".docx".
Proof.
  intros Ha. rewrite (str_lower_ascii db _ Ha), str_endswith_iff. split.
  - intros (r & Hr). apply List.map_eq_app in Hr as (root & ext & -> & _ & Hext).
    eauto.
  - intros (root & ext & -> & Hext).
    exists (List.map ascii_lower root). rewrite List.map_app, Hext. reflexivity.
Qed.

Lemma convert_docm_to_pdf_elem listing filename pdf_filename :
  (filename, pdf_filename) ∈ convert_docm_to_pdf db listing
  <-> filename ∈ listing
      /\ str_endswith (py ".docx") (str_lower db filename) = true
      /\ pdf_filename = splitext_root filename ++ py ".pdf".
Proof.
  induction listing as [|f listing IH]; cbn [convert_docm_to_pdf].
  - split; [intros H; inversion H | intros [H _]; inversion H].
  - destruct (str_endswith (py ".docx") (str_lower db f)) eqn:Hsel.
    + cbv zeta. rewrite !elem_of_cons, IH. split.
      * intros [[= -> ->] | (Hin & He & Hp)]; auto.
      * intros ([-> | Hin] & He & ->); auto.
    + rewrite IH, elem_of_cons. split.
      * intros (Hin & He & Hp). auto.
      * intros ([-> | Hin] & He & Hp); [congruence | auto].
Qed.

(** X11: Of a folder with ASCII names, exactly the names that end in ".docx"
    in any capitalization are converted, each one to its
    [splitext] root followed by ".pdf"; a name ending in ".docm" is never
    converted. *)
Theorem convert_docx_only (listing : list pystr) :
  Forall (fun filename => forallb is_ascii filename = true) listing ->
  (forall filename pdf_filename,
     (filename, pdf_filename) ∈ convert_docm_to_pdf db listing
     <-> filename ∈ listing
         /\ (exists root ext,
               filename = root ++ ext
               /\ List.map ascii_lower ext = py ".docx")
         /\ pdf_filename = splitext_root filename ++ py ".pdf")
  /\ (forall root ext pdf_filename,
        List.map ascii_lower ext = py ".docm" ->
        (root ++ ext, pdf_filename) ∉ convert_docm_to_pdf db listing).
Proof.
  intros Hascii. rewrite Forall_forall in Hascii.
  assert (Hiff : forall filename pdf_filename,
     (filename, pdf_filename) ∈ convert_docm_to_pdf db listing
     <-> filename ∈ listing
         /\ (exists root ext,
               filename = root ++ ext
               /\ List.map ascii_lower ext = py ".docx")
         /\ pdf_filename = splitext_root filename ++ py ".pdf").
  { intros filename pdf_filename. rewrite convert_docm_to_pdf_elem. split.
    - intros (Hin & He & Hp). split; [exact Hin|]. split; [|exact Hp].
      apply docx_selected; auto.
    - intros (Hin & He & Hp). split; [exact Hin|]. split; [|exact Hp].
      apply docx_selected; auto. }
  split; [exact Hiff|].
  intros root ext pdf_filename Hext Hin.
  apply Hiff in Hin as (_ & (root' & ext' & Heq & Hext') & _).
  assert (Hlen : length ext = length ext').
  { apply (f_equal (@length N)) in Hext, Hext'.
    rewrite length_map in Hext, Hext'. rewrite Hext, Hext'. reflexivity. }
  apply app_inj_2 in Heq as [_ ->]; [|exact Hlen].
  rewrite Hext in Hext'. discriminate.
Qed.

(** X12: The PDF name of a converted document: the name with its extension
    replaced by ".pdf", unless nothing but dots precedes the extension,
    in which case ".pdf" is appended to the whole name. *)
Theorem converted_pdf_name (root ext : pystr) :
  forallb is_ascii (root ++ ext) = true ->
  List.map ascii_lower ext = py ".docx" ->
  convert_docm_to_pdf db [root ++ ext]
  = [(root ++ ext,
      if existsb (fun c => negb (N.eqb c DOT)) root
      then root ++ py ".pdf"
      else root ++ ext ++ py ".pdf")].
Proof.
  intros Ha Hext. cbn [convert_docm_to_pdf].
  assert (Hsel : str_endswith (py ".docx") (str_lower db (root ++ ext)) = true).
  { apply docx_selected; eauto. }
  rewrite Hsel. cbv zeta. do 2 f_equal.
  unfold splitext_root.
  rewrite rfind_dot_app, (docx_extension_dot ext Hext), Nat.add_0_r.
  rewrite take_app_length.
  destruct (existsb _ root); [reflexivity|].
  rewrite <- app_assoc. reflexivity.
Qed.

End Converter.

Lemma convert_docx_only_witness :
  Forall (fun filename => forallb is_ascii filename = true)
    [py "Report.v2.DOCX"; py "macro.docm"; py "notes.docx.bak"]
  /\ ((py "Report.v2.DOCX", py "Report.v2.pdf")
        ∈ convert_docm_to_pdf db_rows
            [py "Report.v2.DOCX"; py "macro.docm"; py "notes.docx.bak"]
      <-> py "Report.v2.DOCX"
            ∈ [py "Report.v2.DOCX"; py "macro.docm"; py "notes.docx.bak"]
          /\ (exists root ext,
                py "Report.v2.DOCX" = root ++ ext
                /\ List.map ascii_lower ext = py ".docx")
          /\ py "Report.v2.pdf" = splitext_root (py "Report.v2.DOCX") ++ py ".pdf")
  /\ (py "macro" ++ py ".docm", py "macro.pdf")
       ∉ convert_docm_to_pdf db_rows
           [py "Report.v2.DOCX"; py "macro.docm"; py "notes.docx.bak"].
Proof.
  assert (H : Forall (fun filename => forallb is_ascii filename = true)
                [py "Report.v2.DOCX"; py "macro.docm"; py "notes.docx.bak"]).
  { repeat constructor. }
  split; [exact H|].
  destruct (convert_docx_only db_rows _ H) as [Hiff Hdocm].
  split.
  - apply (Hiff (py "Report.v2.DOCX") (py "Report.v2.pdf")).
  - apply (Hdocm (py "macro") (py ".docm") (py "macro.pdf")). reflexivity.
Defined.

Lemma converted_pdf_name_witness :
  convert_docm_to_pdf db_rows [py "..Docx"] = [(py "..Docx", py "..Docx.pdf")]
  /\ convert_docm_to_pdf db_rows [py "Plan A.docx"]
     = [(py "Plan A.docx", py "Plan A.pdf")].
Proof.
  split.
  - exact (converted_pdf_name db_rows (py ".") (py ".Docx") eq_refl eq_refl).
  - exact (converted_pdf_name db_rows (py "Plan A") (py ".docx") eq_refl eq_refl).
Defined.

(** ** One-dimensional heat conduction *)

Section HeatFacts.
Local Open Scope Q_scope.
Variables d k Ti Ta hi ha : Q.
Hypothesis d_pos : 0 < d.
Hypothesis k_pos : 0 < k.
Hypothesis hi_pos : 0 < hi.
Hypothesis ha_pos : 0 < ha.

Lemma heat_denominator_pos : 0 < k * ha + k * hi + d * ha * hi.
Proof using d_pos k_pos hi_pos ha_pos.
  pose proof (Qmult_lt_0_compat _ _ k_pos ha_pos).
  pose proof (Qmult_lt_0_compat _ _ k_pos hi_pos).
  pose proof (Qmult_lt_0_compat _ _ (Qmult_lt_0_compat _ _ d_pos ha_pos) hi_pos).
  lra.
Qed.

Lemma R_total_pos : 0 < R_total d k hi ha.
Proof using d_pos k_pos hi_pos ha_pos.
  unfold R_total.
  assert (0 < 1 / hi) by (apply Qlt_shift_div_l; lra).
  assert (0 < d / k) by (apply Qlt_shift_div_l; lra).
  assert (0 < 1 / ha) by (apply Qlt_shift_div_l; lra).
  lra.
Qed.

(** X13: The constants [C1] and [C2] solve the two boundary conditions, the
    heat flux [q] equals the one computed from the total resistance, the
    three temperature drops add up to [Ti - Ta], and the three
    resistance shares add up to 100 percent (in exact arithmetic, for
    any positive thickness, conductivity and transfer coefficients). *)
Theorem heat_boundary_conditions :
  - k * heat_C1 d k Ti Ta hi ha == hi * (Ti - heat_C2 d k Ti Ta hi ha)
  /\ - k * heat_C1 d k Ti Ta hi ha
     == ha * (heat_C1 d k Ti Ta hi ha * d + heat_C2 d k Ti Ta hi ha - Ta)
  /\ heat_q d k Ti Ta hi ha == q_alternative d k Ti Ta hi ha
  /\ delta_T_inner d k Ti Ta hi ha + delta_T_wall d k Ti Ta hi ha
     + delta_T_outer d k Ti Ta hi ha == Ti - Ta
  /\ R_inner_percent d k hi ha + R_wall_percent d k hi ha
     + R_outer_percent d k hi ha == 100.
Proof using d_pos k_pos hi_pos ha_pos.
  pose proof heat_denominator_pos as Hden.
  pose proof R_total_pos as HR. unfold R_total in HR.
  unfold heat_q, q_alternative, delta_T_inner, delta_T_wall, delta_T_outer,
    T_surface_inner, T_surface_outer,
    R_inner_percent, R_wall_percent, R_outer_percent, heat_C1, heat_C2, R_total.
  split; [field; repeat split; lra|]. split; [field; repeat split; lra|].
  split; [field; repeat split; lra|]. split; [ring|].
  field; repeat split; lra.
Qed.

Lemma Qdiv_lt_compat (a b c : Q) : 0 < c -> a < b -> a / c < b / c.
Proof.
  intros Hc Hab. unfold Qdiv. apply Qmult_lt_r; [|exact Hab].
  apply Qinv_lt_0_compat, Hc.
Qed.

(** X14: With a warmer inside, the temperatures fall from inside to outside:
    the outer surface is warmer than the outside air, the inner surface
    warmer than the outer one and colder than the inside air, heat flows
    outwards, and every temperature of the computed profile lies
    between the two surface temperatures. *)
Theorem heat_temperatures_ordered :
  Ta < Ti ->
  Ta < T_surface_outer d k Ti Ta hi ha
  /\ T_surface_outer d k Ti Ta hi ha < T_surface_inner d k Ti Ta hi ha
  /\ T_surface_inner d k Ti Ta hi ha < Ti
  /\ 0 < heat_q d k Ti Ta hi ha
  /\ Forall (fun T => T_surface_outer d k Ti Ta hi ha <= T
                      /\ T <= T_surface_inner d k Ti Ta hi ha)
       (heat_T d k Ti Ta hi ha).
Proof using d_pos k_pos hi_pos ha_pos.
  intros Hwarm.
  pose proof heat_denominator_pos as Hden.
  assert (Hden' : ~ k * ha + k * hi + d * ha * hi == 0) by lra.
  assert (Hkha : 0 < k * ha) by (apply Qmult_lt_0_compat; assumption).
  assert (Hkhi : 0 < k * hi) by (apply Qmult_lt_0_compat; assumption).
  assert (Hhahi : 0 < ha * hi) by (apply Qmult_lt_0_compat; assumption).
  assert (Hdhahi : 0 < d * (ha * hi)) by (apply Qmult_lt_0_compat; assumption).
  assert (Hkhahi : 0 < k * (ha * hi)) by (apply Qmult_lt_0_compat; assumption).
  pose proof (proj2 (Qmult_lt_l Ta Ti _ Hkha) Hwarm) as Ha.
  pose proof (proj2 (Qmult_lt_l Ta Ti _ Hkhi) Hwarm) as Hb.
  pose proof (proj2 (Qmult_lt_l Ta Ti _ Hhahi) Hwarm) as Hp.
  pose proof (proj2 (Qmult_lt_l Ta Ti _ Hdhahi) Hwarm) as Hc.
  pose proof (proj2 (Qmult_lt_l Ta Ti _ Hkhahi) Hwarm) as Hkp.
  assert (Hout : T_surface_outer d k Ti Ta hi ha
                 == (k * ha * Ta + k * hi * Ti + d * ha * hi * Ta)
                    / (k * ha + k * hi + d * ha * hi)).
  { unfold T_surface_outer, heat_C1, heat_C2. field. exact Hden'. }
  assert (Hin : T_surface_inner d k Ti Ta hi ha
                == (k * ha * Ta + k * hi * Ti + d * ha * hi * Ti)
                   / (k * ha + k * hi + d * ha * hi)) by reflexivity.
  assert (Hq : heat_q d k Ti Ta hi ha
               == (k * (ha * hi) * Ti - k * (ha * hi) * Ta)
                  / (k * ha + k * hi + d * ha * hi)).
  { unfold heat_q, heat_C1. field. exact Hden'. }
  assert (HC1 : heat_C1 d k Ti Ta hi ha < 0).
  { unfold heat_C1. apply Qlt_shift_div_r; [exact Hden | lra]. }
  assert (H1 : Ta < T_surface_outer d k Ti Ta hi ha).
  { rewrite Hout. apply Qlt_shift_div_l; [exact Hden | lra]. }
  assert (H2 : T_surface_outer d k Ti Ta hi ha < T_surface_inner d k Ti Ta hi ha).
  { rewrite Hout, Hin. apply Qdiv_lt_compat; [exact Hden | lra]. }
  assert (H3 : T_surface_inner d k Ti Ta hi ha < Ti).
  { rewrite Hin. apply Qlt_shift_div_r; [exact Hden | lra]. }
  assert (H4 : 0 < heat_q d k Ti Ta hi ha).
  { rewrite Hq. apply Qlt_shift_div_l; [exact Hden | lra]. }
  repeat (split; [assumption|]).
  unfold heat_T, heat_x, T_surface_outer, T_surface_inner.
  apply Forall_forall. intros T HT.
  apply list_elem_of_In, in_map_iff in HT as (x & <- & Hx).
  apply in_map_iff in Hx as (i & <- & Hi). apply in_seq in Hi.
  assert (Hstep : 0 < d / 99) by (apply Qlt_shift_div_l; lra).
  assert (H0 : 0 <= Qnat i * (d / 99)).
  { apply Qmult_le_0_compat; [apply Qnat_nonneg | lra]. }
  assert (Hd : Qnat i * (d / 99) <= d).
  { assert (Hi99 : Qnat i <= 99) by (unfold Qnat, Qle; simpl; lia).
    assert (H99 : 99 * (d / 99) == d) by (field; lra).
    rewrite <- H99 at 2. apply Qmult_le_compat_r; lra. }
  set (x := Qnat i * (d / 99)) in *.
  assert (Hm : 0 < - heat_C1 d k Ti Ta hi ha) by lra.
  pose proof (proj2 (Qmult_le_l _ _ _ Hm) Hd) as Hxd.
  assert (Hx0 : 0 <= - heat_C1 d k Ti Ta hi ha * x).
  { apply Qmult_le_0_compat; lra. }
  split; lra.
Qed.

End HeatFacts.

Lemma heat_boundary_conditions_witness :
  (0 < 25 # 100 /\ 0 < 15 # 100 /\ 0 < 1 / (13 # 100) /\ 0 < 1 / (4 # 100)
   /\ heat_q (25 # 100) (15 # 100) 22 2 (1 / (13 # 100)) (1 / (4 # 100))
      == q_alternative (25 # 100) (15 # 100) 22 2 (1 / (13 # 100)) (1 / (4 # 100))
   /\ heat_q (25 # 100) (15 # 100) 22 2 (1 / (13 # 100)) (1 / (4 # 100))
      == 6000 # 551)%Q.
Proof.
  pose proof (heat_boundary_conditions (25 # 100) (15 # 100) 22 2
                (1 / (13 # 100)) (1 / (4 # 100))
                eq_refl eq_refl eq_refl eq_refl) as (_ & _ & Hq & _).
  exact (conj eq_refl (conj eq_refl (conj eq_refl (conj eq_refl
           (conj Hq eq_refl))))).
Defined.

Lemma heat_temperatures_ordered_witness :
  (2 < 22
   /\ 2 < T_surface_outer (25 # 100) (15 # 100) 22 2 (1 / (13 # 100)) (1 / (4 # 100))
   /\ T_surface_outer (25 # 100) (15 # 100) 22 2 (1 / (13 # 100)) (1 / (4 # 100))
      < T_surface_inner (25 # 100) (15 # 100) 22 2 (1 / (13 # 100)) (1 / (4 # 100))
   /\ T_surface_inner (25 # 100) (15 # 100) 22 2 (1 / (13 # 100)) (1 / (4 # 100))
      < 22)%Q.
Proof.
  pose proof (heat_temperatures_ordered (25 # 100) (15 # 100) 22 2
                (1 / (13 # 100)) (1 / (4 # 100))
                eq_refl eq_refl eq_refl eq_refl eq_refl) as (H1 & H2 & H3 & _).
  exact (conj eq_refl (conj H1 (conj H2 H3))).
Defined.

(** ** The new file name *)

Lemma rfind_dot_none s : DOT ∉ s -> rfind_dot s = None.
Proof.
  induction s as [|c s IH]; cbn [rfind_dot]; [reflexivity|].
  rewrite not_elem_of_cons. intros [Hc Hs]. rewrite (IH Hs).
  destruct (N.eqb_spec c DOT); congruence.
Qed.

Lemma path_stem_suffix dir s ext :
  s <> [] -> ext <> [] -> DOT ∉ ext -> path_stem (Path dir (s ++ DOT :: ext)) = s.
Proof.
  intros Hs Hext Hdot. unfold path_stem. cbn [name].
  rewrite rfind_dot_app. cbn [rfind_dot].
  rewrite (rfind_dot_none ext Hdot), N.eqb_refl, Nat.add_0_r.
  rewrite length_app. cbn [length].
  assert (Hcond : (0 <? length s)%nat
                  && (length s <? length s + S (length ext) - 1)%nat = true).
  { destruct s; [congruence|]. destruct ext; [congruence|].
    apply andb_true_iff. split; apply Nat.ltb_lt; cbn [length]; lia. }
  rewrite Hcond. apply take_app_length.
Qed.

(** X15: A file [s.ext] whose match has a document number without path
    syntax (no [/], [\] or [:], which [pathlib] would read as a
    directory boundary or a drive) is renamed to the document number
    followed by [s] and ".pdf", in the same directory. *)
Theorem new_path_prefixes_number (dir : list pystr) (s ext number : pystr) :
  s <> [] -> ext <> [] -> DOT ∉ ext ->
  existsb is_path_syntax s = false ->
  existsb is_path_syntax number = false ->
  new_path_of (Path dir (s ++ DOT :: ext)) number
  = Path dir (number ++ s ++ py ".pdf")
  /\ existsb is_path_syntax (number ++ s ++ py ".pdf") = false.
Proof.
  intros Hs Hext Hdot Hsyn_s Hsyn. split.
  - unfold new_path_of.
    rewrite (path_stem_suffix dir s ext Hs Hext Hdot). reflexivity.
  - rewrite !existsb_app, Hsyn, Hsyn_s. reflexivity.
Qed.

Lemma new_path_prefixes_number_witness :
  py "plan" <> [] /\ py "pdf" <> [] /\ (DOT ∉ py "pdf")
  /\ existsb is_path_syntax (py "plan") = false
  /\ existsb is_path_syntax (py "100-") = false
  /\ new_path_of (Path [py "sub"] (py "plan.pdf")) (py "100-")
     = Path [py "sub"] (py "100-plan.pdf").
Proof.
  assert (H1 : py "plan" <> []) by discriminate.
  assert (H2 : py "pdf" <> []) by discriminate.
  assert (H3 : DOT ∉ py "pdf").
  { intros Hin. apply list_elem_of_In in Hin. vm_compute in Hin.
    repeat destruct Hin as [Hin|Hin]; try discriminate Hin. exact Hin. }
  exact (conj H1 (conj H2 (conj H3 (conj eq_refl (conj eq_refl
           (proj1 (new_path_prefixes_number [py "sub"] (py "plan") (py "pdf")
                     (py "100-") H1 H2 H3 eq_refl eq_refl))))))).
Defined.

Lemma pdf_suffix_no_dot : DOT ∉ py "pdf".
Proof.
  intros Hin. apply list_elem_of_In in Hin. vm_compute in Hin.
  repeat destruct Hin as [Hin|Hin]; try discriminate Hin. exact Hin.
Qed.

(** A name [s.pdf] with [s] not empty is its stem followed by ".pdf";
    the name ".pdf" is not (its stem is ".pdf"). *)
Lemma pdf_name_is_stem dir s :
  s <> [] ->
  name (Path dir (s ++ py ".pdf"))
  = path_stem (Path dir (s ++ py ".pdf")) ++ py ".pdf".
Proof.
  intros Hs. change (s ++ py ".pdf") with (s ++ DOT :: py "pdf").
  rewrite (path_stem_suffix dir s (py "pdf") Hs);
    [reflexivity | discriminate | apply pdf_suffix_no_dot].
Qed.

Section LedgerFacts.
Variable e : env.

(** X16: A match whose document number is empty, for a file that
    exists and whose name is its stem followed by ".pdf", renames
    nothing: the new path is the file's own path, so the file is skipped
    as already existing and nothing is recorded. *)
Theorem blank_number_is_skipped (st : rename_state) (pdf_file : path)
    (info : match_info) :
  m_doc_number info = [] ->
  name pdf_file = path_stem pdf_file ++ py ".pdf" ->
  path_exists (rs_files st) pdf_file = true ->
  new_path_of pdf_file (m_doc_number info) = pdf_file
  /\ rename_one e st (pdf_file, info) = st.
Proof.
  intros Hnum Hname Hex.
  assert (Hsame : new_path_of pdf_file (m_doc_number info) = pdf_file).
  { rewrite Hnum. unfold new_path_of. cbn [app]. rewrite <- Hname.
    destruct pdf_file; reflexivity. }
  split; [exact Hsame|].
  apply rename_one_collision. cbn [fst snd]. rewrite Hsame. exact Hex.
Qed.

(** X17: Saving a non-empty history into a ledger that is missing or
    readable, the write succeeding: the ledger then holds every entry of
    the history, and of the entries it held before those whose key the
    history does not set again; its keys are distinct. *)
Theorem ledger_merge (history : dict) (bk : backup_file) :
  history <> [] -> NoDup history.*1 ->
  bk <> Unreadable -> backup_write_raises e = false ->
  exists members,
    save_history e history bk = Ledger members
    /\ NoDup members.*1
    /\ forall k,
         dict_get k members
         = match dict_get k history with
           | Some v => Some v
           | None => dict_get k (json_load (ledger_members bk))
           end.
Proof.
  intros Hne Hnd Hbk Hw. unfold save_history. rewrite Hw.
  destruct history as [|kv history]; [congruence|].
  set (h := kv :: history) in *.
  assert (Hget : forall d k,
            dict_get k (dict_update d h)
            = match dict_get k h with
              | Some v => Some v
              | None => dict_get k d
              end).
  { intros d k. destruct (dict_get k h) as [v|] eqn:Hk.
    - apply dict_get_update; auto.
    - apply dict_get_update_absent. intros Hin.
      apply list_elem_of_fmap in Hin as ([k' v'] & -> & Hin).
      apply (elem_dict_get _ _ _ Hnd) in Hin. cbn [fst] in Hk. congruence. }
  destruct bk as [| |members]; [|congruence|].
  - exists (dict_update [] h). split; [reflexivity|].
    split; [apply dict_update_NoDup, NoDup_nil_2|].
    intros k. rewrite Hget. reflexivity.
  - exists (dict_update (json_load members) h). split; [reflexivity|].
    split; [apply dict_update_NoDup, json_load_NoDup|].
    intros k. apply Hget.
Qed.



End LedgerFacts.

Lemma blank_number_is_skipped_witness :
  name (root_file "plan.pdf") = path_stem (root_file "plan.pdf") ++ py ".pdf"
  /\ rename_one env_ok
       (RenameState {[ root_file "plan.pdf" := 7%N ]} [] 0)
       (root_file "plan.pdf", MatchInfo [] (py "plan") T_exact D_perfect)
     = RenameState {[ root_file "plan.pdf" := 7%N ]} [] 0.
Proof.
  exact (conj eq_refl
           (proj2 (blank_number_is_skipped env_ok
                     (RenameState {[ root_file "plan.pdf" := 7%N ]} [] 0)
                     (root_file "plan.pdf")
                     (MatchInfo [] (py "plan") T_exact D_perfect)
                     eq_refl eq_refl eq_refl))).
Defined.

Lemma ledger_merge_witness :
  exists members,
    save_history env_ok [(root_file "1a.pdf", root_file "a.pdf")]
      (Ledger [(root_file "2b.pdf", root_file "b.pdf");
               (root_file "1a.pdf", root_file "old.pdf")])
    = Ledger members
    /\ NoDup members.*1
    /\ forall k,
         dict_get k members
         = match dict_get k [(root_file "1a.pdf", root_file "a.pdf")] with
           | Some v => Some v
           | None =>
               dict_get k
                 (json_load
                    (ledger_members
                       (Ledger [(root_file "2b.pdf", root_file "b.pdf");
                                (root_file "1a.pdf", root_file "old.pdf")])))
           end.
Proof.
  apply (ledger_merge env_ok [(root_file "1a.pdf", root_file "a.pdf")]
           (Ledger [(root_file "2b.pdf", root_file "b.pdf");
                    (root_file "1a.pdf", root_file "old.pdf")])).
  - discriminate.
  - apply NoDup_singleton.
  - discriminate.
  - reflexivity.
Defined.

(** ** The properties at work on concrete inputs *)

Lemma best_candidate_selected_witness :
  let pdf_name := py "Grundriss_EG" in
  let name_to_number :=
    [(py "Schnitt A-A", py "200-"); (py "Grundriss", py "100-");
     (py "Grundriss EG 1234", py "300-")] in
  Forall (fun e => clean_text_for_matching db_rows e.1
                   <> clean_text_for_matching db_rows pdf_name) name_to_number
  /\ match_pdf db_rows prefix_ratio pdf_name name_to_number
     = Some (MatchInfo (py "100-") (py "Grundriss") T_substring
               (D_overlap (9 # 12)))
  /\ match match_pdf db_rows prefix_ratio pdf_name name_to_number with
     | Some info =>
         exists c,
           (m_matched_name info, m_doc_number info) ∈ name_to_number
           /\ entry_candidate db_rows prefix_ratio pdf_name
                (m_matched_name info, m_doc_number info) = Some c
           /\ m_match_type info = cand_type c
           /\ m_details info = cand_details c
           /\ (5 # 10 < cand_score c)%Q
           /\ Forall (fun e => scores_at_most (cand_score c)
                                 (entry_candidate db_rows prefix_ratio pdf_name e))
                name_to_number
     | None =>
         Forall (fun e => scores_at_most (5 # 10)
                            (entry_candidate db_rows prefix_ratio pdf_name e))
           name_to_number
     end.
Proof.
  cbv zeta.
  assert (H : Forall (fun e => clean_text_for_matching db_rows e.1
                               <> clean_text_for_matching db_rows
                                    (py "Grundriss_EG"))
                [(py "Schnitt A-A", py "200-"); (py "Grundriss", py "100-");
                 (py "Grundriss EG 1234", py "300-")]).
  { repeat constructor; vm_compute; discriminate. }
  split; [exact H|]. split; [vm_compute; reflexivity|].
  exact (best_candidate_selected db_rows prefix_ratio _ _ H).
Defined.

Lemma inferior_entry_ignored_witness :
  entry_candidate db_rows prefix_ratio (py "Grundriss_EG")
    (py "Grundriss EG 1234", py "300-")
  = Some (Candidate (900 # 1700) T_reverse (D_overlap (12 # 17)))
  /\ entry_candidate db_rows prefix_ratio (py "Grundriss_EG")
       (py "Grundriss", py "100-")
     = Some (Candidate (72 # 120) T_substring (D_overlap (9 # 12)))
  /\ match_pdf db_rows prefix_ratio (py "Grundriss_EG")
       ([(py "Schnitt A-A", py "200-"); (py "Grundriss", py "100-")]
        ++ [(py "Grundriss EG 1234", py "300-")])
     = match_pdf db_rows prefix_ratio (py "Grundriss_EG")
         [(py "Schnitt A-A", py "200-"); (py "Grundriss", py "100-")].
Proof.
  assert (Hc : entry_candidate db_rows prefix_ratio (py "Grundriss_EG")
                 (py "Grundriss EG 1234", py "300-")
               = Some (Candidate (900 # 1700) T_reverse (D_overlap (12 # 17))))
    by (vm_compute; reflexivity).
  assert (Hc0 : entry_candidate db_rows prefix_ratio (py "Grundriss_EG")
                  (py "Grundriss", py "100-")
                = Some (Candidate (72 # 120) T_substring (D_overlap (9 # 12))))
    by (vm_compute; reflexivity).
  split; [exact Hc|]. split; [exact Hc0|].
  apply (inferior_entry_ignored db_rows prefix_ratio (py "Grundriss_EG")
           [(py "Schnitt A-A", py "200-"); (py "Grundriss", py "100-")]
           (py "Grundriss EG 1234", py "300-")).
  - vm_compute. discriminate.
  - rewrite Hc.
    exists (py "Grundriss", py "100-"),
           (Candidate (72 # 120) T_substring (D_overlap (9 # 12))).
    split; [right; left|]. split; [exact Hc0|]. reflexivity.
Defined.

Lemma cascade_score_in_range_witness :
  cascade db_rows prefix_ratio (py "grundriss eg") [py "grundriss"]
    (py "grundriss") [py "grundriss"]
  = Some (Candidate (72 # 120) T_substring (D_overlap (9 # 12)))
  /\ score_in_range (Candidate (72 # 120) T_substring (D_overlap (9 # 12))).
Proof.
  assert (H : cascade db_rows prefix_ratio (py "grundriss eg") [py "grundriss"]
                (py "grundriss") [py "grundriss"]
              = Some (Candidate (72 # 120) T_substring (D_overlap (9 # 12))))
    by (vm_compute; reflexivity).
  exact (conj H (cascade_score_in_range db_rows prefix_ratio _ _ _ _ _ H)).
Defined.

Lemma normalized_ascii_shape_witness :
  forallb is_ascii (py " Plan_A-1.PDF ") = true
  /\ clean_text_for_matching db_rows (py " Plan_A-1.PDF ") = py "plan a 1 pdf"
  /\ Forall (fun c => c = SPACE \/ ascii_islower c || ascii_isdigit c = true)
       (clean_text_for_matching db_rows (py " Plan_A-1.PDF "))
  /\ (length (clean_text_for_matching db_rows (py " Plan_A-1.PDF "))
      <= length (py " Plan_A-1.PDF "))%nat.
Proof.
  pose proof (normalized_ascii_shape db_rows (py " Plan_A-1.PDF ") eq_refl)
    as (H1 & _ & _ & _ & H5).
  exact (conj eq_refl (conj eq_refl (conj H1 H5))).
Defined.

Lemma tokens_ascii_shape_witness :
  forallb is_ascii (py "Site_Plan 2024 rev3") = true
  /\ py "rev3" ∈ extract_meaningful_words db_rows (py "Site_Plan 2024 rev3") 3
  /\ (3 <= length (py "rev3"))%nat
  /\ str_in (py "rev3") stop_words = false
  /\ Forall (fun c => ascii_islower c || ascii_isdigit c = true) (py "rev3")
  /\ exists c, c ∈ py "rev3" /\ ascii_islower c = true.
Proof.
  assert (Hin : py "rev3"
                  ∈ extract_meaningful_words db_rows (py "Site_Plan 2024 rev3") 3).
  { apply list_elem_of_In. vm_compute. right. right. left. reflexivity. }
  exact (conj eq_refl (conj Hin
           (tokens_ascii_shape db_rows (py "Site_Plan 2024 rev3") 3 (py "rev3")
              eq_refl Hin))).
Defined.

(** On IEEE doubles, the wall of [solve_heat_conduction]: the two ways
    of computing the heat flux differ in the last place only, and the
    flux is within 1e-12 of the exact 6000/551 W/m2. *)
Example doubles_heat_flux :
  let '(q, q_alternative) := DoublesHeat.heat_flux in
  PrimFloat.eqb q q_alternative = false
  /\ PrimFloat.ltb (PrimFloat.abs (q - q_alternative)) DoublesHeat.lit_1e_12 = true
  /\ PrimFloat.ltb (PrimFloat.abs (q * 551 - 6000)) DoublesHeat.lit_1e_9 = true.
Proof. vm_compute. repeat split. Qed.
